(** * SETAR: hyperparameter search and regime-partitioned datasets

    A shallow embedding of [statsmodels/tsa/setar_model.py] and the
    verification of its specification.

    Conventions of the embedding.
    - Observations are exact rationals ([rat]); Python integers that may be
      zero or negative are [int]; counts and array lengths are [nat].
    - The module is Python 2 code ([None] orders below every number), so a
      threshold is a [pyval := option rat] with [None] smallest.
    - A call either returns or raises: [result T]. Methods that assign to
      [self] return the new model next to their value.
    - Linear algebra is exact; the one place where the code's binary64
      rounding decides an integer, [np.ceil(min_regime_frac * nobs)], is
      computed in binary64 with the Standard Library's [SpecFloat]. *)

From Stdlib Require Import ZArith SpecFloat Lia.
From mathcomp Require Import boot order algebra.

Set Implicit Arguments.
Unset Strict Implicit.
Unset Printing Implicit Defensive.

Import Order.TTheory GRing.Theory Num.Theory.
Local Open Scope ring_scope.

(** ** Exceptions and results *)

Inductive pyexc : Type :=
| ValueError
| InvalidRegimeError of nat
| LinAlgError
| TypeError
| IndexError
| ZeroDivisionError.

Inductive result (T : Type) : Type :=
| Ok of T
| Raise of pyexc.

Arguments Raise {T} _.

Definition bind {T U : Type} (r : result T) (f : T -> result U) : result U :=
  match r with
  | Ok x => f x
  | Raise e => Raise e
  end.

Notation "'do' x <- r ; k" := (bind r (fun x => k))
  (at level 200, x name, r at level 100, k at level 200, right associativity).

Definition raises {T : Type} (r : result T) (p : pyexc -> bool) : bool :=
  if r is Raise e then p e else false.

Definition is_invalid_regime (e : pyexc) : bool :=
  if e is InvalidRegimeError _ then true else false.

(** ** Python and numpy primitives *)

(** A threshold as Python 2 sees it: a number or [None]. *)
Definition pyval : Type := option rat.

(** Python 2 [a < v] for a threshold [a] and a number [v]:
    [None] is below every number. *)
Definition py_lt_num (a : pyval) (v : rat) : bool :=
  if a is Some x then x < v else true.

(** Python 2 [a <= b] on thresholds. *)
Definition py_le (a b : pyval) : bool :=
  match a, b with
  | None, _ => true
  | Some _, None => false
  | Some x, Some y => x <= y
  end.

(** [np.sort] of a list of thresholds. *)
Definition np_sort (s : seq pyval) : seq pyval := sort py_le s.

(** [np.sort(x)] where [x] may be [None]: a zero-dimensional array has no
    axis to sort along. *)
Definition np_sort_opt (s : option (seq pyval)) : result (seq pyval) :=
  if s is Some l then Ok (np_sort l) else Raise ValueError.

(** Index normalisation of a Python slice bound against a length. *)
Definition py_bound (n : nat) (i : int) : nat :=
  match i with
  | Posz m => minn m n
  | Negz m => n - m.+1
  end.

(** [s[start:stop]]. *)
Definition py_slice {T : Type} (s : seq T) (start stop : int) : seq T :=
  drop (py_bound (size s) start) (take (py_bound (size s) stop) s).

(** [s[:stop]]. *)
Definition py_slice_to {T : Type} (s : seq T) (stop : int) : seq T :=
  take (py_bound (size s) stop) s.

(** [np.searchsorted(a, v)] with the default [side='left'] on a sorted
    array [a]: the leftmost insertion point, that is the first index whose
    element is not below [v]. The module sorts every threshold array it
    builds ([np.sort] on lines 93, 188 and 267); on an unsorted array
    numpy's binary search may answer differently. *)
Fixpoint searchsorted (a : seq pyval) (v : rat) : nat :=
  match a with
  | [::] => 0%N
  | x :: a' => if py_lt_num x v then (searchsorted a' v).+1 else 0%N
  end.

(** A row scaled by a boolean, as [np.multiply] does with a mask. *)
Definition mask_row (b : bool) (r : seq rat) : seq rat :=
  if b then r else nseq (size r) 0.

(** [np.multiply(exog_transpose, mask).T], rows of the result; numpy
    broadcasts the mask against the last axis. *)
Definition np_multiply_T (rows : seq (seq rat)) (mask : seq bool)
  : result (seq (seq rat)) :=
  if size mask == size rows then
    Ok [seq mask_row br.1 br.2 | br <- zip mask rows]
  else if size mask == 1%N then
    Ok [seq mask_row (head false mask) r | r <- rows]
  else if size rows == 1%N then
    Ok [seq mask_row b (head [::] rows) | b <- mask]
  else Raise ValueError.

(** Two blocks side by side. *)
Definition hcat (a b : seq (seq rat)) : seq (seq rat) :=
  [seq ab.1 ++ ab.2 | ab <- zip a b].

(** [np.concatenate(blocks, 1)]. *)
Definition np_concatenate1 (blocks : seq (seq (seq rat)))
  : result (seq (seq rat)) :=
  match blocks with
  | [::] => Raise ValueError
  | b0 :: bs =>
      if all (fun b => size b == size b0) bs then Ok (foldl hcat b0 bs)
      else Raise ValueError
  end.

(** ** The model object *)

(** The attributes of a [SETAR] instance. The first six are the
    constructor's arguments kept as they are (the "immutable" properties);
    [delay] and [thresholds] are the "flexible" ones that [fit] may assign;
    [regimes] is only ever [None]. *)
Record SETAR : Type := mkSETAR {
  endog : seq rat;
  order : nat;
  ar_order : nat;
  min_regime_frac : rat;
  max_delay : int;
  threshold_grid_size : nat;
  delay : option int;
  thresholds : option (seq pyval);
  regimes : option (seq nat);
}.

(** Modelled from the spec: [statsmodels.tsa.tsatools.lagmat] and
    [add_constant] are not under src/. The design has a leading column of
    ones followed by [ar_order] lagged columns; it keeps one row per
    observation (lags before the start of the series are zero), and the
    model drops the first [ar_order] rows itself by slicing
    [exog[nobs_initial:]]. *)
Definition lagged_row (y : seq rat) (p t : nat) : seq rat :=
  1 :: [seq (if (j < t)%N then nth 0 y (t - j.+1) else 0) | j <- iota 0 p].

Definition lagged_design (y : seq rat) (p : nat) : seq (seq rat) :=
  [seq lagged_row y p t | t <- iota 0 (size y)].

(** Attributes that [__init__] derives once from its arguments and that no
    method assigns afterwards. *)
Definition exog (self : SETAR) : seq (seq rat) :=
  lagged_design (endog self) (ar_order self).

Definition nobs_initial (self : SETAR) : nat := ar_order self.

Definition nobs (self : SETAR) : int :=
  (size (endog self))%:Z - (ar_order self)%:Z.

(** *** binary64

    [min_regime_frac] is a Python float and [self.nobs] an int, so line 87
    multiplies in binary64 and [np.ceil] sees the rounded product. *)

Definition Z_of_int (i : int) : Z :=
  match i with
  | Posz n => Z.of_nat n
  | Negz n => Z.opp (Z.of_nat n.+1)
  end.

Definition int_of_Z (z : Z) : int :=
  match z with
  | Z0 => 0
  | Zpos p => Posz (Pos.to_nat p)
  | Zneg p => - Posz (Pos.to_nat p)
  end.

Definition float64 : Type := spec_float.

(** [float(i)], correctly rounded. *)
Definition float64_of_int (i : int) : float64 :=
  binary_normalize (Zpos 53) (Zpos 1024) (Z_of_int i) Z0 false.

(** The binary64 value that stands for a rational: the nearest one, ties
    to even, as Python reads a literal such as [0.28]; a rational that is
    a binary64 value stands for itself. *)
Definition float64_of_rat (q : rat) : float64 :=
  SFdiv (Zpos 53) (Zpos 1024)
    (float64_of_int (numq q)) (float64_of_int (denq q)).

(** [x * y] on floats. *)
Definition float64_mul (x y : float64) : float64 :=
  SFmul (Zpos 53) (Zpos 1024) x y.

(** [np.ceil(x)] of a finite float, as an integer. An infinite or NaN
    product (a fraction or a length beyond 1.8e308) has no integral
    ceiling and is outside the embedding. *)
Definition np_ceil (x : float64) : Z :=
  match x with
  | S754_finite s m e =>
      let v := if s then Zneg m else Zpos m in
      if Z.leb Z0 e then Z.mul v (Z.pow (Zpos 2) e)
      else Z.opp (Z.div (Z.opp v) (Z.pow (Zpos 2) (Z.opp e)))
  | _ => Z0
  end.

(** [np.ceil(min_regime_frac * self.nobs)]: an integral value. *)
Definition min_regime_num (self : SETAR) : int :=
  int_of_Z
    (np_ceil
       (float64_mul (float64_of_rat (min_regime_frac self))
          (float64_of_int (nobs self)))).

Arguments min_regime_num : simpl never.

(** ** [SETAR.__init__] *)

(** Python 2 [x > n] where [x] may be [None]: [None] is below every
    number. (An interpreter of the Python 3 line refuses the comparison
    with [TypeError]; the two agree whenever [x] is a number.) *)
Definition py_gt_opt (x : option int) (n : int) : bool :=
  if x is Some v then n < v else false.

(** [if delay is not None and delay < 1 or delay > ar_order: raise]. *)
Definition validate_delay (delay0 : option int) (ar_order0 : nat)
  : result unit :=
  if (if delay0 is Some d then d < 1 else false)
     || py_gt_opt delay0 ar_order0
  then Raise ValueError else Ok tt.

(** [if delay is None and max_delay > ar_order: raise]. *)
Definition validate_max_delay (delay0 max_delay0 : option int)
    (ar_order0 : nat) : result unit :=
  if (delay0 == None) && py_gt_opt max_delay0 ar_order0
  then Raise ValueError else Ok tt.

(** [if thresholds is not None and not len(thresholds)+1 == order: raise]. *)
Definition validate_thresholds (thresholds0 : option (seq pyval))
    (order0 : nat) : result unit :=
  if (if thresholds0 is Some l then (size l).+1 != order0 else false)
  then Raise ValueError else Ok tt.

Definition init (y : seq rat) (order0 ar_order0 : nat)
    (delay0 : option int) (thresholds0 : option (seq pyval))
    (frac : rat) (max_delay0 : option int) (grid_size : nat)
  : result SETAR :=
  do _ <- validate_delay delay0 ar_order0;
  do _ <- validate_max_delay delay0 max_delay0 ar_order0;
  do _ <- validate_thresholds thresholds0 order0;
  do ths <- np_sort_opt thresholds0;
  Ok {| endog := y;
        order := order0;
        ar_order := ar_order0;
        min_regime_frac := frac;
        max_delay := if max_delay0 is Some m then m else ar_order0;
        threshold_grid_size := grid_size;
        delay := delay0;
        thresholds := Some ths;
        regimes := None |}.

(** ** [SETAR.build_datasets] *)

Section BuildDatasets.

Variable self : SETAR.

(** [self.endog[self.nobs_initial-delay:-delay, ]]. *)
Definition threshold_variable (d : int) : seq rat :=
  py_slice (endog self) ((nobs_initial self)%:Z - d) (- d).

Definition regime_indicators (d : int) (ths : seq pyval) : seq nat :=
  [seq searchsorted ths v | v <- threshold_variable d].

(** [indicators == i]. *)
Definition in_regime (ind : seq nat) (i : nat) : seq bool :=
  [seq j == i | j <- ind].

(** [in_regime.sum()]. *)
Definition regime_count (ind : seq nat) (i : nat) : nat :=
  count id (in_regime ind i).

(** The body of [for i in range(order)], over the remaining indices. *)
Fixpoint regime_blocks (ind : seq nat) (rows : seq (seq rat))
    (regimes : seq nat) : result (seq (seq (seq rat))) :=
  match regimes with
  | [::] => Ok [::]
  | i :: rest =>
      if (regime_count ind i)%:Z < min_regime_num self
      then Raise (InvalidRegimeError i)
      else
        do blk <- np_multiply_T rows (in_regime ind i);
        do blks <- regime_blocks ind rows rest;
        Ok (blk :: blks)
  end.

Definition build_datasets (d : int) (ths : seq pyval) (ord : option nat)
  : result (seq rat * seq (seq rat)) :=
  let ord := if ord is Some o then o else order self in
  let y := drop (nobs_initial self) (endog self) in
  let rows := drop (nobs_initial self) (exog self) in
  let ind := regime_indicators d ths in
  do blks <- regime_blocks ind rows (iota 0 ord);
  do x <- np_concatenate1 blks;
  Ok (y, x).

End BuildDatasets.

(** ** Arrays as matrices *)

(** A list of rows read as an [n x m] matrix. *)
Definition mx_of_rows (n m : nat) (rows : seq (seq rat)) : 'M[rat]_(n, m) :=
  \matrix_(i < n, j < m) nth 0 (nth [::] rows i) j.

(** A one-dimensional array read as a column vector. *)
Definition col_of_seq (n : nat) (s : seq rat) : 'cV[rat]_n :=
  \col_(i < n) nth 0 s i.

Definition seq_of_col (n : nat) (v : 'cV[rat]_n) : seq rat :=
  [seq v i 0 | i <- enum 'I_n].

(** [np.linalg.inv], in exact arithmetic: a singular matrix raises. In
    binary64 LAPACK raises only when it meets a pivot that is exactly
    zero, as it does for a matrix with a zero column; on a matrix that is
    singular without one it may return the inverse of rounding noise. What
    is proved about a value that the objective returns is therefore about
    the exact value, and [LinAlgError] is concluded only for matrices with
    a zero column. *)
Definition np_linalg_inv (n : nat) (A : 'M[rat]_n) : result 'M[rat]_n :=
  if A \in unitmx then Ok (invmx A) else Raise LinAlgError.

(** ** [SETAR._grid_search_objective] *)

Section Objective.

Variable self : SETAR.

(** [k = self.ar_order + 1], the width of the lagged design. *)
Definition ncols : nat := (ar_order self).+1.

(** [self.exog[self.nobs_initial:]] and its number of rows. *)
Definition design_rows : seq (seq rat) :=
  drop (nobs_initial self) (exog self).

Definition nrows : nat := size design_rows.

Definition design : 'M[rat]_(nrows, ncols) :=
  mx_of_rows nrows ncols design_rows.

(** [exog[:, :-k]] of a partitioned design, as rows. *)
Definition drop_last_block (x : seq (seq rat)) : seq (seq rat) :=
  [seq py_slice_to r (- ncols%:Z) | r <- x].

(** The matrix that [_grid_search_objective] inverts. *)
Definition inner_matrix (c : nat) (X1 : 'M[rat]_(nrows, c))
    (XX : 'M[rat]_ncols) : 'M[rat]_c :=
  let X := design in
  let X1X1 := X1^T *m X1 in
  let XX1 := X^T *m X1 in
  X1X1 - XX1^T *m XX *m XX1.

Definition quadratic_form (c : nat) (X1 : 'M[rat]_(nrows, c))
    (Mn : 'M[rat]_c) (r : 'cV[rat]_nrows) : rat :=
  (r^T *m X1 *m Mn *m X1^T *m r) 0 0.

Definition grid_search_objective (d : int) (ths : seq pyval)
    (XX : 'M[rat]_ncols) (resids : seq rat) : result rat :=
  do yx <- build_datasets self d ths (Some (size ths).+1);
  let c := (size ths * ncols)%N in
  let X1r := drop_last_block yx.2 in
  if size X1r != nrows then Raise ValueError else
  let X1 := mx_of_rows nrows c X1r in
  do Mn <- np_linalg_inv (inner_matrix X1 XX);
  if size resids != nrows then Raise ValueError else
  Ok (quadratic_form X1 Mn (col_of_seq nrows resids)).

End Objective.

Arguments grid_search_objective self d ths XX resids : clear implicits.

(** ** [SETAR._select_hyperparameters_grid] *)

(** A length: negative values count as zero. *)
Definition clip0 (i : int) : nat :=
  if i is Posz m then m else 0%N.

(** [range(a, b)] over Python integers. *)
Definition py_range (a b : int) : seq int :=
  [seq a + i%:Z | i <- iota 0 (clip0 (b - a))].

(** [np.arange(start, stop, step, dtype=int)] for integral arguments and
    a positive step. *)
Definition np_arange (start stop : int) (step : nat) : seq int :=
  let len := divn (clip0 (stop - start) + step.-1)%N step in
  [seq start + (i * step)%:Z | i <- iota 0 len].

(** [a[i]] for one index of a numpy index array: negative indices count
    from the end, anything else out of range raises. *)
Definition np_getitem (a : seq rat) (i : int) : result rat :=
  match i with
  | Posz m => if (m < size a)%N then Ok (nth 0 a m) else Raise IndexError
  | Negz m =>
      if (m < size a)%N then Ok (nth 0 a (size a - m.+1))
      else Raise IndexError
  end.

(** [a[indices]]. *)
Fixpoint np_take (a : seq rat) (indices : seq int) : result (seq rat) :=
  match indices with
  | [::] => Ok [::]
  | i :: rest =>
      do x <- np_getitem a i;
      do xs <- np_take a rest;
      Ok (x :: xs)
  end.

(** [np.unique(np.sort(a))]. *)
Definition np_unique_sorted (a : seq rat) : seq rat :=
  undup (sort <=%R a).

(** The running best of the grid search: [(params, max_obj)], where
    [params] is [(None, None)] or a [(delay, threshold)] pair. *)
Definition best : Type := (option (int * rat) * rat)%type.

Definition best0 : best := (None, 0).

Section GridSearch.

Variable self : SETAR.

(** The objective the search calls, [self._grid_search_objective] with the
    cached [XX] and [resids] already supplied. *)
Variable objective : int -> seq pyval -> result rat.

(** The threshold grid for one delay. *)
Definition threshold_grid (threshold_grid_size0 : nat) (d : int)
  : result (seq rat) :=
  let threshold_var := np_unique_sorted (py_slice_to (endog self) (- d)) in
  let n := size threshold_var in
  if threshold_grid_size0 == 0%N then Raise ZeroDivisionError else
  let step := maxn (divn n threshold_grid_size0) 1 in
  let indices :=
    np_arange (min_regime_num self) (n%:Z - min_regime_num self) step in
  np_take threshold_var indices.

(** One pass of the inner [try] block. *)
Definition try_candidate (others : seq pyval) (d : int) (acc : best)
    (threshold : rat) : result best :=
  match objective d (np_sort (Some threshold :: others)) with
  | Ok obj => if acc.2 < obj then Ok (Some (d, threshold), obj) else Ok acc
  | Raise (InvalidRegimeError _) => Ok acc
  | Raise e => Raise e
  end.

(** [for threshold in threshold_grid]. *)
Fixpoint scan_thresholds (others : seq pyval) (d : int) (acc : best)
    (grid : seq rat) : result best :=
  match grid with
  | [::] => Ok acc
  | t :: rest =>
      do acc' <- try_candidate others d acc t;
      scan_thresholds others d acc' rest
  end.

(** [for delay in delay_grid]; a [None] delay cannot be negated. *)
Fixpoint scan_delays (others : seq pyval) (threshold_grid_size0 : nat)
    (acc : best) (delay_grid : seq (option int)) : result best :=
  match delay_grid with
  | [::] => Ok acc
  | None :: _ => Raise TypeError
  | Some d :: rest =>
      do grid <- threshold_grid threshold_grid_size0 d;
      do acc' <- scan_thresholds others d acc grid;
      scan_delays others threshold_grid_size0 acc' rest
  end.

(** [range(2, self.max_delay+1)]. *)
Definition default_delay_grid : seq (option int) :=
  [seq Some d | d <- py_range 2 (max_delay self + 1)].

Definition select_hyperparameters_grid (others : seq pyval)
    (threshold_grid_size0 : nat) (delay_grid : option (seq (option int)))
  : result best :=
  let delay_grid :=
    if delay_grid is Some g then g else default_delay_grid in
  scan_delays others threshold_grid_size0 best0 delay_grid.

End GridSearch.

(** ** [SETAR.select_hyperparameters] *)

(** [params[0]] and [params[1]] of a grid-search answer. *)
Definition param_delay (b : best) : option int := omap fst b.1.

Definition param_threshold (b : best) : pyval := omap snd b.1.

(** [s[j] = v] on a Python list. *)
Definition py_setitem (s : seq pyval) (j : nat) (v : pyval)
  : result (seq pyval) :=
  if (j < size s)%N then Ok (set_nth None s j v) else Raise IndexError.

(** [thresholds[:j] + thresholds[j+1:]]. *)
Definition without (s : seq pyval) (j : nat) : seq pyval :=
  take j s ++ drop j.+1 s.

Definition maxiter : nat := 100.

(** How the [while True] loop was left. *)
Record refined : Type := mkRefined {
  ref_thresholds : seq pyval;   (* [thresholds] after the loop *)
  ref_proposed : seq pyval;     (* [proposed] after the loop *)
  ref_sweeps : nat;             (* [iteration] after the loop *)
  ref_warned : bool;            (* the warning was printed *)
}.

Section Refinement.

(** [self._select_hyperparameters_grid] with [threshold_grid_size], [XX]
    and [resids] already supplied: the loop only passes the thresholds
    held fixed and the delay grid. *)
Variable grid : seq pyval -> option (seq (option int)) -> result best.

(** [for j in range(i)], over the remaining positions. *)
Fixpoint sweep (d : option int) (ths proposed : seq pyval)
    (js : seq nat) : result (seq pyval) :=
  match js with
  | [::] => Ok proposed
  | j :: rest =>
      do b <- grid (without ths j) (Some [:: d]);
      do proposed' <- py_setitem proposed j (param_threshold b);
      sweep d ths proposed' rest
  end.

(** The [while True] loop; [fuel] bounds the number of sweeps the model
    follows, [None] means that it ran out. *)
Fixpoint refine (fuel : nat) (i : nat) (d : option int) (iteration : nat)
    (ths proposed : seq pyval) : option (result refined) :=
  match fuel with
  | 0%N => None
  | fuel'.+1 =>
      let iteration := iteration.+1 in
      match sweep d ths proposed (iota 0 i) with
      | Raise e => Some (Raise e)
      | Ok proposed' =>
          if proposed' == ths then
            Some (Ok (mkRefined ths proposed' iteration false))
          else if (maxiter < iteration)%N then
            Some (Ok (mkRefined ths proposed' iteration true))
          else refine fuel' i d iteration proposed' proposed'
      end
  end.

(** [for i in range(2, self.order)], over the remaining values of [i];
    the count is the number of warnings printed so far. *)
Fixpoint add_thresholds (fuel : nat) (d : option int) (ths : seq pyval)
    (warnings : nat) (todo : seq nat) : option (result (seq pyval * nat)) :=
  match todo with
  | [::] => Some (Ok (ths, warnings))
  | i :: rest =>
      match grid ths (Some [:: d]) with
      | Raise e => Some (Raise e)
      | Ok b =>
          let ths1 := rcons ths (param_threshold b) in
          match refine fuel i d 0 ths1 ths1 with
          | None => None
          | Some (Raise e) => Some (Raise e)
          | Some (Ok r) =>
              add_thresholds fuel d (ref_thresholds r)
                (warnings + ref_warned r)%N rest
          end
      end
  end.

(** The search proper, after the baseline quantities are cached. The
    answer is [(delay, np.sort(thresholds))] and the number of warnings. *)
Definition search (fuel : nat) (order0 : nat)
  : option (result (option int * seq pyval * nat)) :=
  match grid [::] None with
  | Raise e => Some (Raise e)
  | Ok b =>
      let d := param_delay b in
      match add_thresholds fuel d [:: param_threshold b] 0
              (iota 2 (order0 - 2)) with
      | None => None
      | Some (Raise e) => Some (Raise e)
      | Some (Ok tw) => Some (Ok (d, np_sort tw.1, tw.2))
      end
  end.

End Refinement.

Section SelectHyperparameters.

Variable self : SETAR.

(** [endog[nobs_initial:]] as a column. *)
Definition response : 'cV[rat]_(nrows self) :=
  col_of_seq (nrows self) (drop (nobs_initial self) (endog self)).

(** [XX = np.linalg.inv(exog.T.dot(exog))]. *)
Definition cached_XX : result 'M[rat]_(ncols self) :=
  np_linalg_inv ((design self)^T *m design self).

(** [resids = endog - exog.dot(XX.dot(exog.T.dot(endog)))]. *)
Definition cached_resids (XX : 'M[rat]_(ncols self)) : seq rat :=
  seq_of_col (response - design self *m (XX *m ((design self)^T *m response))).

(** The grid search as [select_hyperparameters] calls it. *)
Definition cached_grid (XX : 'M[rat]_(ncols self)) (resids : seq rat)
    (others : seq pyval) (delay_grid : option (seq (option int)))
  : result best :=
  select_hyperparameters_grid self
    (fun d ths => grid_search_objective self d ths XX resids)
    others (threshold_grid_size self) delay_grid.

Definition select_hyperparameters (fuel : nat)
  : option (result (option int * seq pyval * nat)) :=
  match cached_XX with
  | Raise e => Some (Raise e)
  | Ok XX =>
      search (cached_grid XX (cached_resids XX)) fuel (order self)
  end.

End SelectHyperparameters.

(** ** [SETAR.fit] *)

Section Fit.

(** The external least-squares collaborator, [OLS(endog, exog).fit()]. *)
Variable OLSResults : Type.
Variable OLS_fit : seq rat -> seq (seq rat) -> result OLSResults.

Definition set_hyperparameters (self : SETAR) (d : option int)
    (ths : seq pyval) : SETAR :=
  {| endog := endog self;
     order := order self;
     ar_order := ar_order self;
     min_regime_frac := min_regime_frac self;
     max_delay := max_delay self;
     threshold_grid_size := threshold_grid_size self;
     delay := d;
     thresholds := Some ths;
     regimes := regimes self |}.

(** [if self.delay is None or self.thresholds is None]. *)
Definition hyperparameters_unset (self : SETAR) : bool :=
  (delay self == None) || (thresholds self == None).

(** [fit] returns its value (or raises) and leaves the model behind. *)
Definition fit (fuel : nat) (self : SETAR)
  : option (result OLSResults * SETAR) :=
  let resolved :=
    if hyperparameters_unset self then
      match select_hyperparameters self fuel with
      | None => None
      | Some (Raise e) => Some (Raise e)
      | Some (Ok dtw) => Some (Ok (set_hyperparameters self dtw.1.1 dtw.1.2))
      end
    else Some (Ok self) in
  match resolved with
  | None => None
  | Some (Raise e) => Some (Raise e, self)
  | Some (Ok self') =>
      let r :=
        match delay self', thresholds self' with
        | Some d, Some ths =>
            do yx <- build_datasets self' d ths None;
            OLS_fit yx.1 yx.2
        | None, _ => Raise TypeError
        | _, None => Raise ValueError
        end in
      Some (r, self')
  end.

End Fit.

(** ** Notions used by the statements *)

(** Regime [i] has fewer rows than [min_regime_num]. *)
Definition too_small (self : SETAR) (ind : seq nat) (i : nat) : bool :=
  (regime_count ind i)%:Z < min_regime_num self.

(** The block of regime [i]: the design with the other regimes' rows
    zeroed. *)
Definition masked_block (ind : seq nat) (rows : seq (seq rat)) (i : nat)
  : seq (seq rat) :=
  [seq mask_row br.1 br.2 | br <- zip (in_regime ind i) rows].


(** A call of [build_datasets] as its caller sees it: the value or the
    exception, and the model afterwards. The method assigns no attribute
    of [self]. *)
Definition call_build_datasets (self : SETAR) (d : int) (ths : seq pyval)
    (ord : option nat) : result (seq rat * seq (seq rat)) * SETAR :=
  (build_datasets self d ths ord, self).

(** ** Concrete models *)

(** A series of period three, [ar_order = 2], two regimes, the default
    [min_regime_frac = 0.1] and [threshold_grid_size = 100]. *)
Definition periodic_series : seq rat := [:: 1; 2; 3; 1; 2; 3; 1; 2].

Definition periodic_model : SETAR :=
  {| endog := periodic_series;
     order := 2;
     ar_order := 2;
     min_regime_frac := 1 / 10;
     max_delay := 2;
     threshold_grid_size := 100;
     delay := None;
     thresholds := Some [:: Some 2];
     regimes := None |}.

(** The vector held in [thresholds] after [n] sweeps that were all
    adopted: each sweep starts from [proposed = thresholds]. *)
Fixpoint adopted_after
    (grid : seq pyval -> option (seq (option int)) -> result best)
    (i : nat) (d : option int) (n : nat) (ths : seq pyval)
  : result (seq pyval) :=
  match n with
  | 0%N => Ok ths
  | n'.+1 =>
      do t <- adopted_after grid i d n' ths;
      sweep grid d t t (iota 0 i)
  end.

(** A stand-in for [_select_hyperparameters_grid] (a subclass or a test
    double can supply one) whose answer never settles: at delay 2 it
    proposes one more than the first threshold held fixed. *)
Definition climbing_grid (others : seq pyval)
    (delay_grid : option (seq (option int))) : result best :=
  let x := if head None others is Some v then v else 0 in
  Ok (Some (2 : int, x + 1), 1).

(** The state in which the loop of [climbing_grid] stops when it starts
    from [[1, 2]]: the vector adopted after sweep 100, the proposal of
    sweep 101, the sweep count and the warning. *)
Definition climbing_start : seq pyval := [:: Some 1; Some 2].

Definition climbing_stop : refined :=
  mkRefined [:: Some 101%:Q; Some 102%:Q] [:: Some 103%:Q; Some 102%:Q]
    101 true.

(** The candidates of a grid search in the order the nested loops meet
    them: delays in grid order, and for each delay its threshold grid. *)
Fixpoint candidates (self : SETAR) (threshold_grid_size0 : nat)
    (delay_grid : seq (option int)) : seq (int * rat) :=
  match delay_grid with
  | [::] => [::]
  | None :: _ => [::]
  | Some d :: rest =>
      (if threshold_grid self threshold_grid_size0 d is Ok g
       then [seq (d, t) | t <- g] else [::])
      ++ candidates self threshold_grid_size0 rest
  end.

(** The objective of a candidate given the thresholds held fixed. *)
Definition candidate_value (objective : int -> seq pyval -> result rat)
    (others : seq pyval) (c : int * rat) : result rat :=
  objective c.1 (np_sort (Some c.2 :: others)).

(** The two loops of the grid search as one pass over the candidates. *)
Fixpoint scan_candidates (objective : int -> seq pyval -> result rat)
    (others : seq pyval) (acc : best) (cands : seq (int * rat))
  : result best :=
  match cands with
  | [::] => Ok acc
  | c :: rest =>
      do acc' <- try_candidate objective others c.1 acc c.2;
      scan_candidates objective others acc' rest
  end.

(** A stand-in objective that scores every candidate alike. *)
Definition flat_objective (d : int) (ths : seq pyval) : result rat := Ok 1.

(** A short series with [ar_order = 1]: the lagged values are 0, 1, 2, 3,
    and the threshold 1 puts two rows in each regime. *)
Definition ramp_series : seq rat := [:: 0; 1; 2; 3; 0].

Definition ramp_model : SETAR :=
  {| endog := ramp_series;
     order := 2;
     ar_order := 1;
     min_regime_frac := 1 / 10;
     max_delay := 1;
     threshold_grid_size := 100;
     delay := Some (1 : int);
     thresholds := Some [:: Some 1];
     regimes := None |}.

(** The partitioned design of [ramp_model] for delay 1 and threshold 1. *)
Definition ramp_dataset : seq rat * seq (seq rat) :=
  ([:: 1; 2; 3; 0],
   [:: [:: 1; 0; 0; 0]; [:: 1; 1; 0; 0]; [:: 0; 0; 1; 2]; [:: 0; 0; 1; 3]]).

(** The inverses of its Gram matrix and of its inner matrix. *)
Definition ramp_gram_inv : 'M[rat]_2 :=
  mx_of_rows 2 2 [:: [:: 7%:Q / 10%:Q; - (3%:Q / 10%:Q)];
                     [:: - (3%:Q / 10%:Q); 1 / 5%:Q]].

Definition ramp_inner_inv : 'M[rat]_2 :=
  mx_of_rows 2 2 [:: [:: 14%:Q; - 6%:Q]; [:: - 6%:Q; 4%:Q]].

(** The partitioned design of [periodic_model] for delay 2 and
    threshold 2. *)
Definition periodic_dataset : seq rat * seq (seq rat) :=
  ([:: 3; 1; 2; 3; 1; 2],
   [:: [:: 1; 2; 1; 0; 0; 0]; [:: 1; 3; 2; 0; 0; 0];
       [:: 0; 0; 0; 1; 1; 3]; [:: 1; 2; 1; 0; 0; 0];
       [:: 1; 3; 2; 0; 0; 0]; [:: 0; 0; 0; 1; 1; 3]]).

(** A short series with [ar_order = 3] whose smallest value comes first,
    and a model on it that asks for no minimum regime size
    ([min_regime_frac = 0]). *)
Definition unguarded_series : seq rat := [:: 0; 1; 1; 1; 2; 2; 1].

Definition unguarded_model : SETAR :=
  {| endog := unguarded_series;
     order := 2;
     ar_order := 3;
     min_regime_frac := 0;
     max_delay := 3;
     threshold_grid_size := 100;
     delay := Some 2;
     thresholds := Some [:: Some 1];
     regimes := None |}.

(** The inverse of the Gram matrix [X'X] of [unguarded_model]. *)
Definition unguarded_gram_inv : 'M[rat]_4 :=
  mx_of_rows 4 4
    [:: [:: 3; -1; -1; 0];
        [:: -1; 2; -1; -1];
        [:: -1; -1; 2; 0];
        [:: 0; -1; 0; 2]].

(** What [build_datasets] returns for the first candidate of its seed
    phase, delay 2 and threshold 0: no row has a lagged value at or below
    0, so the block of regime 0 is zero. *)
Definition unguarded_dataset : seq rat * seq (seq rat) :=
  ([:: 1; 2; 2; 1],
   [:: [:: 0; 0; 0; 0; 1; 1; 1; 0]; [:: 0; 0; 0; 0; 1; 1; 1; 1];
       [:: 0; 0; 0; 0; 1; 2; 1; 1]; [:: 0; 0; 0; 0; 1; 2; 2; 1]]).

(** The combination of the columns of its first block that takes column
    0 alone. *)
Definition first_column : 'cV[rat]_4 := col_of_seq 4 [:: 1; 0; 0; 0].

(** Twenty-five rows, seven of them at or below 0, with
    [min_regime_frac = 0.28]. *)
Definition tight_series : seq rat := nseq 7 0 ++ nseq 19 1.

Definition tight_model : SETAR :=
  {| endog := tight_series;
     order := 2;
     ar_order := 1;
     min_regime_frac := 7%:Q / 25%:Q;
     max_delay := 1;
     threshold_grid_size := 100;
     delay := Some 1;
     thresholds := Some [:: Some 0];
     regimes := None |}.

(** ** Notions used by the further properties *)

(** The delay grid that a grid search runs over. *)
Definition effective_delay_grid (self : SETAR)
    (delay_grid : option (seq (option int))) : seq (option int) :=
  if delay_grid is Some g then g else default_delay_grid self.


(** [ramp_model] before any delay is chosen. *)
Definition ramp_model_unset : SETAR :=
  {| endog := ramp_series;
     order := 2;
     ar_order := 1;
     min_regime_frac := 1 / 10;
     max_delay := 1;
     threshold_grid_size := 100;
     delay := None;
     thresholds := Some [:: Some 1];
     regimes := None |}.

(** A least-squares collaborator that hands back what it was given. *)
Definition echo_fit (y : seq rat) (x : seq (seq rat))
  : result (seq rat * seq (seq rat)) := Ok (y, x).

(** The partitioned design without its last block, as the objective
    reads it. *)
Definition incremental_design (self : SETAR) (ths : seq pyval)
    (x : seq (seq rat)) : 'M[rat]_(nrows self, size ths * ncols self) :=
  mx_of_rows (nrows self) (size ths * ncols self) (drop_last_block self x).


(** A stand-in grid search that always proposes the same threshold. *)
Definition settled_grid (others : seq pyval)
    (delay_grid : option (seq (option int))) : result best :=
  Ok (Some (2 : int, 5), 1).

(** * Verification *)

(** ** The concrete models are built by the constructor *)

Example periodic_model_init :
  init periodic_series 2 2 None (Some [:: Some 2]) (1 / 10) None 100
  = Ok periodic_model.
Proof. by []. Qed.

Example ramp_model_init :
  init ramp_series 2 1 (Some 1) (Some [:: Some 1]) (1 / 10) None 100
  = Ok ramp_model.
Proof. by []. Qed.

(** ** Sizes of the arrays of a model *)

Lemma size_lagged_design y p : size (lagged_design y p) = size y.
Proof. by rewrite /lagged_design size_map size_iota. Qed.

Lemma size_design_rows self :
  size (design_rows self) = (size (endog self) - ar_order self)%N.
Proof. by rewrite /design_rows size_drop size_lagged_design. Qed.

Lemma delay_in_rangeP (d : int) (p : nat) :
  (1 <= d) && (d <= p%:Z) ->
  exists2 m : nat, d = (m.+1)%:Z & (m < p)%N.
Proof.
case: d => [[|m]|m] //.
by case/andP=> _ le_mp; exists m.
Qed.

Lemma subn_sub_min (N p m : nat) :
  (m < p)%N -> (N - m.+1 - minn (p - m.+1) N = N - p)%N.
Proof.
move=> lt_mp; case: (leqP (p - m.+1) N) => [le_pN | lt_Np].
- by rewrite -subnDA subnKC.
- have /eqP -> : (N - m.+1 - N == 0)%N by rewrite subn_eq0 leq_subr.
  apply/esym/eqP; rewrite subn_eq0.
  by apply: leq_trans (ltnW lt_Np) (leq_subr _ _).
Qed.

(** For a delay within [1, ar_order] the threshold variable is aligned
    with the rows of the design. *)
Lemma size_threshold_variable self (d : int) :
  (1 <= d) && (d <= (ar_order self)%:Z) ->
  size (threshold_variable self d) = (size (endog self) - ar_order self)%N.
Proof.
case/delay_in_rangeP => m -> lt_mp.
rewrite /threshold_variable /py_slice /nobs_initial.
rewrite subzn // -NegzE /= size_drop size_take_min.
by rewrite (minn_idPl (leq_subr _ _)) subn_sub_min.
Qed.

(** ** Bucket search *)

Lemma sorted_head_le_nth (x : rat) (s : seq rat) (k : nat) :
  sorted <%R (x :: s) -> (k <= size s)%N -> x <= nth 0 (x :: s) k.
Proof.
move=> srt le_k.
have := @sorted_leq_nth _ <=%R (@le_trans _ _) (@le_refl _ _) 0 (x :: s).
move/(_ (sub_sorted (@ltW _ _) srt) 0%N k).
by rewrite !inE /= ltnS; apply.
Qed.

Lemma searchsorted_interval (ths : seq rat) (v : rat) (k : nat) :
  sorted <%R ths -> (k <= size ths)%N ->
  (searchsorted (map Some ths) v == k)
  = ((k == 0%N) || (nth 0 ths k.-1 < v))
    && ((k == size ths) || (v <= nth 0 ths k)).
Proof.
elim: ths k => [|x s IH] [|k] //= srt le_k.
- by rewrite leNgt; case: (x < v).
- have srt_s : sorted <%R s by exact: (path_sorted srt).
  case: ltP => [lt_xv | le_vx].
  + rewrite eqSS IH //; congr (_ && _).
    by case: k {le_k} => [|k] //=; rewrite lt_xv.
  + have := sorted_head_le_nth srt le_k.
    move=> /= le_x; rewrite ltNge (le_trans le_vx le_x) //.
Qed.

Lemma searchsorted_le_size (a : seq pyval) (v : rat) :
  (searchsorted a v <= size a)%N.
Proof. by elim: a => [|x a IH] //=; case: ifP. Qed.

(** ** The partitioner *)

Lemma size_in_regime ind i : size (in_regime ind i) = size ind.
Proof. by rewrite /in_regime size_map. Qed.

Lemma size_masked_block ind rows i :
  size ind = size rows -> size (masked_block ind rows i) = size rows.
Proof.
by move=> eq_sz; rewrite /masked_block size_map size_zip size_in_regime
  eq_sz minnn.
Qed.

Lemma nth_masked_block ind rows i r :
  size ind = size rows ->
  nth [::] (masked_block ind rows i) r
  = mask_row (nth 0%N ind r == i) (nth [::] rows r).
Proof.
move=> eq_sz; case: (ltnP r (size rows)) => [lt_r | le_r].
- rewrite (nth_map (false, [::])) ?size_zip ?size_in_regime ?eq_sz ?minnn //.
  rewrite nth_zip ?size_in_regime //=.
  by rewrite (nth_map 0%N) ?eq_sz.
- rewrite !nth_default ?size_masked_block ?eq_sz //.
  by case: (0%N == i).
Qed.

Lemma regime_blocks_aligned self ind rows regs :
  size ind = size rows ->
  regime_blocks self ind rows regs
  = if has (too_small self ind) regs
    then Raise (InvalidRegimeError
                  (nth 0%N regs (find (too_small self ind) regs)))
    else Ok [seq masked_block ind rows i | i <- regs].
Proof.
move=> eq_sz; elim: regs => [|i regs IH] //=.
rewrite -/(too_small self ind i); case: ifP => // _.
rewrite /np_multiply_T size_in_regime eq_sz eqxx /= IH.
by case: ifP.
Qed.

Lemma size_hcat a b : size (hcat a b) = minn (size a) (size b).
Proof. by rewrite /hcat size_map size_zip. Qed.

Lemma nth_hcat a b r :
  size a = size b ->
  nth [::] (hcat a b) r = nth [::] a r ++ nth [::] b r.
Proof.
move=> eq_sz; case: (ltnP r (size a)) => [lt_r | le_r].
- rewrite (nth_map ([::], [::])) ?size_zip -?eq_sz ?minnn //.
  by rewrite nth_zip.
- by rewrite !nth_default // -?eq_sz // size_hcat -eq_sz minnn.
Qed.

Lemma foldl_hcat b0 bs :
  all (fun b => size b == size b0) bs ->
  size (foldl hcat b0 bs) = size b0
  /\ forall r, nth [::] (foldl hcat b0 bs) r
               = nth [::] b0 r ++ flatten [seq nth [::] b r | b <- bs].
Proof.
elim: bs b0 => [|b bs IH] b0 /=; first by split=> // r; rewrite cats0.
case/andP=> /eqP eq_b all_bs.
have sz_h : size (hcat b0 b) = size b0 by rewrite size_hcat eq_b minnn.
have /IH [sz nth_r] : all (fun c => size c == size (hcat b0 b)) bs.
  by rewrite sz_h.
split; first by rewrite sz.
by move=> r; rewrite nth_r nth_hcat // catA.
Qed.

Lemma count_regime_of (j n : nat) :
  count (fun i => j == i) (iota 0 n) = (j < n)%N.
Proof.
have -> : count (fun i => j == i) (iota 0 n) = count_mem j (iota 0 n).
  by apply: eq_count => i /=; rewrite eq_sym.
by rewrite count_uniq_mem ?iota_uniq // mem_iota.
Qed.

Lemma size_regime_indicators self (d : int) ths :
  (1 <= d) && (d <= (ar_order self)%:Z) ->
  size (regime_indicators self d ths) = size (design_rows self).
Proof.
move=> d_ok.
by rewrite /regime_indicators size_map size_threshold_variable //
  size_design_rows.
Qed.

Lemma build_datasets_aligned self (d : int) ths ord :
  (1 <= d) && (d <= (ar_order self)%:Z) ->
  let ind := regime_indicators self d ths in
  let n := if ord is Some o then o else order self in
  build_datasets self d ths ord
  = if has (too_small self ind) (iota 0 n)
    then Raise (InvalidRegimeError
                  (nth 0%N (iota 0 n) (find (too_small self ind) (iota 0 n))))
    else do x <- np_concatenate1
                   [seq masked_block ind (design_rows self) i | i <- iota 0 n];
         Ok (drop (nobs_initial self) (endog self), x).
Proof.
move=> d_ok ind n; rewrite /build_datasets -/n -/ind.
rewrite -/(design_rows self) regime_blocks_aligned ?size_regime_indicators //.
by case: ifP.
Qed.

(** [np_ceil] is the ceiling of the value [v * 2^e] of a finite float:
    the least integer that is not below it. *)
Lemma np_ceil_least (s : bool) (m : positive) (e n : Z) :
  let v := if s then Zneg m else Zpos m in
  Z.le (np_ceil (S754_finite s m e)) n
  <-> (if Z.leb Z0 e then Z.le (Z.mul v (Z.pow (Zpos 2) e)) n
       else Z.le v (Z.mul n (Z.pow (Zpos 2) (Z.opp e)))).
Proof.
move=> v; rewrite /np_ceil -/v; case: Z.leb_spec => // lt_e.
have pos_b : Z.lt Z0 (Z.pow (Zpos 2) (Z.opp e)).
  by apply: Z.pow_pos_nonneg => //; lia.
move: (Z.pow _ _) pos_b => b pos_b; split=> [le_n | le_v].
- have : Z.le (Z.opp n) (Z.div (Z.opp v) b) by lia.
  move=> le_q; have := Z.mul_div_le (Z.opp v) b pos_b.
  have : Z.le (Z.mul b (Z.opp n)) (Z.mul b (Z.div (Z.opp v) b)).
    by apply: Z.mul_le_mono_nonneg_l => //; lia.
  by lia.
- have : Z.le (Z.opp n) (Z.div (Z.opp v) b).
    by apply: Z.div_le_lower_bound => //; lia.
  by lia.
Qed.

(** C4 (amended). For a delay within [1, ar_order] (and any thresholds),
    [build_datasets] raises [InvalidRegimeError] exactly when some regime
    of [range(order)] has strictly fewer observations than
    [min_regime_num]; that number is [np.ceil] of the binary64 product
    [min_regime_frac * (len(endog) - ar_order)], not the ceiling of the
    exact product; the call leaves the model as it was. *)
Theorem build_datasets_raises_iff_small_regime
    (self : SETAR) (d : int) (ths : seq pyval) :
  (1 <= d) && (d <= (ar_order self)%:Z) ->
  let ind := regime_indicators self d ths in
  [/\ raises (build_datasets self d ths None) is_invalid_regime
      = has (fun i => (regime_count ind i)%:Z < min_regime_num self)
            (iota 0 (order self)),
      min_regime_num self
      = int_of_Z
          (np_ceil
             (float64_mul (float64_of_rat (min_regime_frac self))
                (float64_of_int
                   ((size (endog self))%:Z - (ar_order self)%:Z))))
    & (call_build_datasets self d ths None).2 = self].
Proof.
move=> d_ok ind; split=> //.
rewrite build_datasets_aligned // -/ind -/(too_small self ind).
case: ifP => //= _.
by rewrite /np_concatenate1; case: map => [|b0 bs] //=; case: ifP.
Qed.

Lemma build_datasets_raises_iff_small_regime_witness :
  let self := periodic_model in
  let ind := regime_indicators self 2 [:: Some 2] in
  [/\ raises (build_datasets self 2 [:: Some 2] None) is_invalid_regime
      = has (fun i => (regime_count ind i)%:Z < min_regime_num self)
            (iota 0 (order self)),
      min_regime_num self
      = int_of_Z
          (np_ceil
             (float64_mul (float64_of_rat (min_regime_frac self))
                (float64_of_int
                   ((size (endog self))%:Z - (ar_order self)%:Z))))
    & (call_build_datasets self 2 [:: Some 2] None).2 = self].
Proof.
exact: (@build_datasets_raises_iff_small_regime periodic_model 2
          [:: Some 2] isT).
Defined.

Example tight_model_init :
  init tight_series 2 1 (Some 1) (Some [:: Some 0]) (7%:Q / 25%:Q) None 100
  = Ok tight_model.
Proof. by []. Qed.

(** C4, as stated, fails: with [min_regime_frac = 0.28] and 25 rows the
    exact product is 7 and so is its ceiling, but the binary64 product is
    just above 7 and [min_regime_num] is 8. On [tight_model] no regime has
    fewer than 7 rows, and the partitioner rejects regime 0, which has
    exactly 7. *)
Lemma build_datasets_rejects_regime_of_exact_size :
  let self := tight_model in
  let ind := regime_indicators self 1 [:: Some 0] in
  [/\ Num.ceil (min_regime_frac self
                * ((size (endog self))%:Z - (ar_order self)%:Z)%:~R)
      = 7 :> int,
      has (fun i => (regime_count ind i)%:Z < 7) (iota 0 (order self))
      = false,
      (regime_count ind 0 = 7)%N,
      min_regime_num self = 8
    & build_datasets self 1 [:: Some 0] None
      = Raise (InvalidRegimeError 0)].
Proof.
split.
- by rewrite ceilErat.
- by vm_compute.
- by vm_compute.
- by vm_compute.
- by vm_compute.
Qed.

Example periodic_min_regime_num : min_regime_num periodic_model = 1.
Proof. by vm_compute. Qed.

Example periodic_indicators :
  regime_indicators periodic_model 2 [:: Some 2]
  = [:: 0; 0; 1; 0; 0; 1]%N.
Proof. by []. Qed.

Lemma nth_regime_indicators_lt self (d : int) ths r :
  size ths = (order self).-1 -> (0 < order self)%N ->
  (nth 0%N (regime_indicators self d ths) r < order self)%N.
Proof.
move=> sz_ths ord_gt0.
case: (ltnP r (size (regime_indicators self d ths))) => [lt_r | le_r].
- rewrite (nth_map 0) -?(size_map (searchsorted ths)) //.
  by rewrite -(prednK ord_gt0) ltnS -sz_ths searchsorted_le_size.
- by rewrite nth_default.
Qed.

(** C5. For a delay within [1, ar_order] and [order - 1] thresholds with
    [order >= 2], the regime masks are aligned with the rows of the
    design, every row is selected by exactly one of the masks of
    [range(order)], and in the partitioned design that [build_datasets]
    returns, row [r] is the concatenation over the regimes of the lagged
    regressors of row [r], kept as they are in the block of the row's
    regime and zeroed in every other block. *)
Theorem regime_masks_partition_rows
    (self : SETAR) (d : int) (ths : seq pyval) :
  (1 <= d) && (d <= (ar_order self)%:Z) ->
  size ths = (order self).-1 -> (2 <= order self)%N ->
  let ind := regime_indicators self d ths in
  [/\ forall i, size (in_regime ind i) = nrows self,
      forall r, (r < nrows self)%N ->
        count (fun i => nth false (in_regime ind i) r) (iota 0 (order self))
        = 1%N
    & forall y x, build_datasets self d ths None = Ok (y, x) ->
      size x = nrows self
      /\ forall r, (r < nrows self)%N ->
           nth [::] x r
           = flatten [seq mask_row (nth false (in_regime ind i) r)
                            (nth [::] (design_rows self) r)
                     | i <- iota 0 (order self)]].
Proof.
move=> d_ok sz_ths ord_ge2 ind.
have sz_ind : size ind = nrows self by rewrite size_regime_indicators.
have nth_mask i r : (r < nrows self)%N ->
    nth false (in_regime ind i) r = (nth 0%N ind r == i).
  by move=> lt_r; rewrite (nth_map 0%N) ?sz_ind.
split.
- by move=> i; rewrite size_in_regime.
- move=> r lt_r.
  have -> : count (fun i => nth false (in_regime ind i) r)
                  (iota 0 (order self))
            = count (fun i => nth 0%N ind r == i) (iota 0 (order self)).
    by apply: eq_count => i; rewrite nth_mask.
  rewrite count_regime_of nth_regime_indicators_lt //.
  exact: leq_trans ord_ge2.
- move=> y x; rewrite build_datasets_aligned // -/ind.
  case: ifP => // _.
  case: (order self) ord_ge2 => [|n] //= _.
  have all_sz :
    all (fun b => size b == size (masked_block ind (design_rows self) 0))
        [seq masked_block ind (design_rows self) i | i <- iota 1 n].
    by apply/allP => b /mapP[i _ ->]; rewrite !size_masked_block.
  rewrite all_sz /=; case=> _ <-.
  have [sz_x nth_x] := foldl_hcat all_sz.
  split; first by rewrite sz_x size_masked_block.
  move=> r lt_r; rewrite nth_x nth_masked_block // nth_mask //; congr (_ ++ _).
  rewrite -map_comp; congr flatten; apply: eq_map => i /=.
  by rewrite nth_masked_block // nth_mask.
Qed.

Lemma regime_masks_partition_rows_witness :
  let self := periodic_model in
  let ths := [:: Some 2] in
  let ind := regime_indicators self 2 ths in
  [/\ forall i, size (in_regime ind i) = nrows self,
      forall r, (r < nrows self)%N ->
        count (fun i => nth false (in_regime ind i) r) (iota 0 (order self))
        = 1%N
    & forall y x, build_datasets self 2 ths None = Ok (y, x) ->
      size x = nrows self
      /\ forall r, (r < nrows self)%N ->
           nth [::] x r
           = flatten [seq mask_row (nth false (in_regime ind i) r)
                            (nth [::] (design_rows self) r)
                     | i <- iota 0 (order self)]].
Proof.
exact: (@regime_masks_partition_rows periodic_model 2 [:: Some 2]
          isT (erefl _) isT).
Defined.

(** C10. Regime intervals are left-open and right-closed. For strictly
    ascending thresholds, a value of the threshold variable gets regime
    index [k] exactly when it lies in [(thresholds[k-1], thresholds[k]]]
    (with no lower bound for [k = 0] and no upper bound for the last
    regime); in particular a value equal to [thresholds[k]] gets index
    [k], and this is the index [build_datasets] gives to every row. *)
Theorem regime_intervals_left_open_right_closed
    (ths : seq rat) (v : rat) (k : nat) :
  sorted <%R ths -> (k <= size ths)%N ->
  [/\ (searchsorted (map Some ths) v == k)
      = ((k == 0%N) || (nth 0 ths k.-1 < v))
        && ((k == size ths) || (v <= nth 0 ths k)),
      (k < size ths)%N -> searchsorted (map Some ths) (nth 0 ths k) = k
    & forall self (d : int) r,
        (r < size (threshold_variable self d))%N ->
        nth 0%N (regime_indicators self d (map Some ths)) r
        = searchsorted (map Some ths) (nth 0 (threshold_variable self d) r)].
Proof.
move=> srt le_k; split; first exact: searchsorted_interval.
- move=> lt_k; apply/eqP; rewrite searchsorted_interval // lexx orbT andbT.
  case: k lt_k {le_k} => [|k] //= lt_k.
  by rewrite (sorted_ltn_nth lt_trans) // inE // ltnW.
- by move=> self d r lt_r; rewrite (nth_map 0).
Qed.

Lemma regime_intervals_left_open_right_closed_witness :
  let ths : seq rat := [:: 1; 2] in
  [/\ (searchsorted (map Some ths) 2 == 1%N)
      = ((1%N == 0%N) || (nth 0 ths 0 < 2))
        && ((1%N == size ths) || (2 <= nth 0 ths 1)),
      (1 < size ths)%N -> searchsorted (map Some ths) (nth 0 ths 1) = 1%N
    & forall self (d : int) r,
        (r < size (threshold_variable self d))%N ->
        nth 0%N (regime_indicators self d (map Some ths)) r
        = searchsorted (map Some ths) (nth 0 (threshold_variable self d) r)].
Proof.
exact: (@regime_intervals_left_open_right_closed [:: 1; 2] 2 1 isT isT).
Defined.

(** C8. With a delay supplied, the first validation of the constructor
    raises [ValueError] whenever [delay < 1] or [delay > ar_order], and
    construction fails with it whatever the other arguments are; a delay
    within [1, ar_order] passes this validation. *)
Theorem init_validates_supplied_delay
    (y : seq rat) (order0 ar_order0 : nat) (d : int)
    (thresholds0 : option (seq pyval)) (frac : rat)
    (max_delay0 : option int) (grid_size : nat) :
  ((d < 1) || ((ar_order0 : int) < d) ->
     init y order0 ar_order0 (Some d) thresholds0 frac max_delay0 grid_size
     = Raise ValueError)
  /\ ((1 <= d) && (d <= ar_order0) ->
        validate_delay (Some d) ar_order0 = Ok tt).
Proof.
split; rewrite /init /validate_delay /=.
- by move=> ->.
- by case/andP=> le1 led; rewrite !ltNge le1 led.
Qed.

Lemma init_validates_supplied_delay_witness :
  init periodic_series 2 3 (Some 5) (Some [:: Some 2]) (1 / 10) None 100
  = Raise ValueError
  /\ validate_delay (Some 2) 3 = Ok tt.
Proof.
split.
- exact: (proj1 (init_validates_supplied_delay periodic_series 2 3 5
                   (Some [:: Some 2]) (1 / 10) None 100) isT).
- exact: (proj2 (init_validates_supplied_delay periodic_series 2 3 2
                   (Some [:: Some 2]) (1 / 10) None 100) isT).
Defined.

(** ** The coordinate refinement loop *)

Section RefinementLoop.

Variable grid : seq pyval -> option (seq (option int)) -> result best.
Variables (i : nat) (d : option int).

Lemma adopted_afterS n ths :
  adopted_after grid i d n.+1 ths
  = do t <- sweep grid d ths ths (iota 0 i); adopted_after grid i d n t.
Proof.
elim: n => [|n IH] /=; first by case: sweep.
by rewrite -/(adopted_after grid i d n.+1 ths) IH; case: sweep.
Qed.

(** What the loop has done when it returns normally. *)
Lemma refine_returns fuel it ths r :
  refine grid fuel i d it ths ths = Some (Ok r) ->
  exists n,
    [/\ ref_sweeps r = (it + n.+1)%N,
        adopted_after grid i d n ths = Ok (ref_thresholds r),
        sweep grid d (ref_thresholds r) (ref_thresholds r) (iota 0 i)
        = Ok (ref_proposed r),
        ref_warned r = (ref_proposed r != ref_thresholds r)
      & ref_warned r -> (maxiter < ref_sweeps r)%N].
Proof.
elim: fuel it ths => [|fuel IH] it ths //=.
case E: sweep => [p|e] //.
case: eqP E => [-> E | /eqP ne_p E].
  by case=> <-; exists 0%N; rewrite /= addn1 eqxx E.
case: ltnP => [gt_max | le_max].
  by case=> <-; exists 0%N; rewrite /= addn1 E ne_p gt_max.
move/IH=> [n [sw ad sp wa cap]]; exists n.+1.
rewrite adopted_afterS E /=; split=> //.
by rewrite sw addSnnS.
Qed.

(** With more fuel than [maxiter] the loop always ends. *)
Lemma refine_total fuel it ths p :
  (it <= maxiter)%N -> (maxiter < it + fuel)%N ->
  exists out, refine grid fuel i d it ths p = Some out.
Proof.
elim: fuel it ths p => [|fuel IH] it ths p le_it.
  by rewrite addn0 ltnNge le_it.
rewrite addnS -addSn /= => lt_max.
case: sweep => [q|e]; last by exists (Raise e).
case: ifP => _; first by eexists.
case: ltnP => [_ | le_it1]; first by eexists.
exact: IH.
Qed.

Lemma refine_sweeps_bound fuel it ths p r :
  (it <= maxiter)%N ->
  refine grid fuel i d it ths p = Some (Ok r) ->
  (ref_sweeps r <= maxiter.+1)%N
  /\ (ref_warned r -> ref_sweeps r = maxiter.+1).
Proof.
elim: fuel it ths p => [|fuel IH] it ths p le_it //=.
case: sweep => [q|e] //.
case: ifP => _; first by case=> <- /=; split.
case: ltnP => [lt_max | le_it1]; last exact: IH.
case=> <- /=; split=> // _.
by apply/eqP; rewrite eqn_leq ltnS le_it.
Qed.

End RefinementLoop.

Lemma add_thresholds_total grid fuel d ths w todo :
  (maxiter < fuel)%N ->
  exists out, add_thresholds grid fuel d ths w todo = Some out.
Proof.
move=> lt_fuel; elim: todo ths w => [|i todo IH] ths w /=; first by eexists.
case: (grid ths _) => [b|e]; last by eexists.
set ths1 := rcons _ _.
have [[r|e] ->] := @refine_total grid i d fuel 0 ths1 ths1 (leq0n _) lt_fuel.
- exact: IH.
- by eexists.
Qed.

Lemma search_total grid fuel order0 :
  (maxiter < fuel)%N -> exists out, search grid fuel order0 = Some out.
Proof.
move=> lt_fuel; rewrite /search.
case: (grid [::] None) => [b|e]; last by eexists.
have [[tw|e] ->] :=
  @add_thresholds_total grid fuel (param_delay b) [:: param_threshold b] 0
    (iota 2 (order0 - 2)) lt_fuel; by eexists.
Qed.

(** C7 (amended). With fuel for [maxiter + 1] sweeps the refinement loop
    always ends: the grid search raises, or the loop converges (the
    proposal equals the vector it started the sweep from) after at most
    [maxiter + 1] sweeps, or it stops after exactly [maxiter + 1] sweeps
    with the warning printed and a proposal that still differs. The whole
    search therefore always ends too. *)
Theorem refinement_loop_terminates
    (grid : seq pyval -> option (seq (option int)) -> result best)
    (i : nat) (d : option int) (ths : seq pyval) (fuel : nat) :
  (maxiter < fuel)%N ->
  (exists out, refine grid fuel i d 0 ths ths = Some out
     /\ match out with
        | Raise _ => True
        | Ok r =>
            (ref_sweeps r <= maxiter.+1)%N
            /\ (if ref_warned r
                then ref_sweeps r = maxiter.+1
                     /\ ref_proposed r != ref_thresholds r
                else ref_proposed r = ref_thresholds r)
        end)
  /\ forall order0, exists out, search grid fuel order0 = Some out.
Proof.
move=> lt_fuel; split; last by move=> order0; exact: search_total.
have [out E] := @refine_total grid i d fuel 0 ths ths (leq0n _) lt_fuel.
exists out; split=> //; case: out E => [r|e] // E.
have [le_sw cap] := refine_sweeps_bound (leq0n _) E.
have [n [_ _ _ wa _]] := refine_returns E.
split=> //; case: ifP wa cap => [_ <- cap | _ /esym/negbFE/eqP] //.
by split=> //; exact: cap.
Qed.

Lemma refinement_loop_terminates_witness :
  (exists out,
     refine climbing_grid 101 2 (Some 2) 0 [:: Some 1; Some 2]
       [:: Some 1; Some 2] = Some out
     /\ match out with
        | Raise _ => True
        | Ok r =>
            (ref_sweeps r <= maxiter.+1)%N
            /\ (if ref_warned r
                then ref_sweeps r = maxiter.+1
                     /\ ref_proposed r != ref_thresholds r
                else ref_proposed r = ref_thresholds r)
        end)
  /\ forall order0, exists out, search climbing_grid 101 order0 = Some out.
Proof.
exact: (@refinement_loop_terminates climbing_grid 2 (Some 2)
          [:: Some 1; Some 2] 101 isT).
Defined.

(** C7, as stated, fails: with proposals that never settle the loop stops
    only after sweep [maxiter + 1 = 101], not converged. *)
Lemma refinement_loop_runs_101_sweeps :
  exists r,
    [/\ refine climbing_grid 101 2 (Some 2) 0 [:: Some 1; Some 2]
          [:: Some 1; Some 2] = Some (Ok r),
        ref_proposed r != ref_thresholds r
      & (maxiter < ref_sweeps r)%N].
Proof.
exists (mkRefined [:: Some 101%:Q; Some 102%:Q]
          [:: Some 103%:Q; Some 102%:Q] 101 true).
by split; vm_compute.
Qed.

(** C1 (amended). When the refinement loop returns, every sweep before
    the last one produced a proposal that was adopted, so [thresholds] is
    the vector adopted after the last-but-one sweep and [proposed] is the
    last sweep's proposal computed from it. The warning is printed exactly
    when that last proposal still differs, which happens only at sweep
    [maxiter + 1 = 101]; in either case the loop hands on [thresholds],
    so the search returns the sorted vector adopted after sweep 100 and
    the proposal of the final sweep is discarded. *)
Theorem refinement_returns_last_adopted
    (grid : seq pyval -> option (seq (option int)) -> result best)
    (fuel i : nat) (d : option int) (ths0 : seq pyval) (r : refined) :
  refine grid fuel i d 0 ths0 ths0 = Some (Ok r) ->
  [/\ (0 < ref_sweeps r <= maxiter.+1)%N,
      adopted_after grid i d (ref_sweeps r).-1 ths0 = Ok (ref_thresholds r),
      sweep grid d (ref_thresholds r) (ref_thresholds r) (iota 0 i)
      = Ok (ref_proposed r),
      ref_warned r = (ref_proposed r != ref_thresholds r)
      /\ (ref_warned r -> ref_sweeps r = maxiter.+1)
    & forall b b2,
        grid [::] None = Ok b -> d = param_delay b ->
        grid [:: param_threshold b] (Some [:: d]) = Ok b2 ->
        ths0 = [:: param_threshold b; param_threshold b2] -> i = 2%N ->
        search grid fuel 3
        = Some (Ok (d, np_sort (ref_thresholds r), ref_warned r : nat))].
Proof.
move=> E.
have [le_sw cap] := refine_sweeps_bound (leq0n _) E.
have [n [sw ad sp wa _]] := refine_returns E.
split=> //; first by rewrite le_sw sw addnS.
- by rewrite sw.
- move=> b b2 Eb Ed Eb2 Eths Ei; rewrite /search Eb -Ed /= Eb2 /=.
  by rewrite -Eths -Ei E.
Qed.

Lemma refinement_returns_last_adopted_witness :
  let grid := climbing_grid in
  let r := climbing_stop in
  let d : option int := Some 2 in
  [/\ (0 < ref_sweeps r <= maxiter.+1)%N,
      adopted_after grid 2 d (ref_sweeps r).-1 climbing_start
      = Ok (ref_thresholds r),
      sweep grid d (ref_thresholds r) (ref_thresholds r) (iota 0 2)
      = Ok (ref_proposed r),
      ref_warned r = (ref_proposed r != ref_thresholds r)
      /\ (ref_warned r -> ref_sweeps r = maxiter.+1)
    & forall b b2,
        grid [::] None = Ok b -> d = param_delay b ->
        grid [:: param_threshold b] (Some [:: d]) = Ok b2 ->
        climbing_start = [:: param_threshold b; param_threshold b2] ->
        2%N = 2%N ->
        search grid 101 3
        = Some (Ok (d, np_sort (ref_thresholds r), ref_warned r : nat))].
Proof.
apply: (@refinement_returns_last_adopted climbing_grid 101 2 (Some 2)
          climbing_start climbing_stop).
by vm_compute.
Defined.

(** C1, as stated, fails: when the cap is exceeded the search returns the
    vector adopted after sweep 100, which is not the proposal of the final
    sweep, sorted or not. *)
Lemma search_discards_final_proposal :
  [/\ refine climbing_grid 101 2 (Some 2) 0 climbing_start climbing_start
      = Some (Ok climbing_stop),
      ref_warned climbing_stop,
      search climbing_grid 101 3
      = Some (Ok (Some 2, [:: Some 101%:Q; Some 102%:Q], 1%N)),
      [:: Some 101%:Q; Some 102%:Q] != ref_proposed climbing_stop
    & [:: Some 101%:Q; Some 102%:Q] != np_sort (ref_proposed climbing_stop)].
Proof. by split; vm_compute. Qed.

(** ** Construction and lazy selection *)

(** C2. Construction with [thresholds] left unsupplied always raises,
    whatever the other arguments are: when the three validations pass,
    [__init__] ends by sorting the thresholds it was given, and
    [np.sort(None)] raises. The lazy search of [fit] is therefore never
    reached from a model built without thresholds. *)
Theorem init_without_thresholds_raises
    (y : seq rat) (order0 ar_order0 : nat) (delay0 : option int)
    (frac : rat) (max_delay0 : option int) (grid_size : nat) :
  init y order0 ar_order0 delay0 None frac max_delay0 grid_size
  = Raise ValueError.
Proof.
rewrite /init /validate_delay /validate_max_delay.
by case: ifP => // _; case: ifP.
Qed.

Example init_defaults_raise :
  init periodic_series 2 2 None None (1 / 10) None 100 = Raise ValueError.
Proof. exact: init_without_thresholds_raises. Qed.

Section FitCache.

Variable OLSResults : Type.
Variable OLS_fit : seq rat -> seq (seq rat) -> result OLSResults.

(** On a model whose delay is unset, a [fit] that gets through the search
    leaves the selected hyperparameters on the model, and a second [fit]
    does not search again (it needs no fuel) and returns the same value. *)
Lemma fit_reuses_cached_hyperparameters self fuel v self' :
  hyperparameters_unset self ->
  fit OLS_fit fuel self = Some (Ok v, self') ->
  [/\ exists d ths w,
        [/\ select_hyperparameters self fuel = Some (Ok (Some d, ths, w)),
            delay self' = Some d & thresholds self' = Some ths],
      hyperparameters_unset self' = false
    & fit OLS_fit 0 self' = Some (Ok v, self')].
Proof.
move=> unset; rewrite /fit unset.
case: select_hyperparameters => [[[[[d|] ths] w]|e]|] //=.
case=> Ev <-; split=> //; first by exists d, ths, w.
by rewrite /fit /hyperparameters_unset /= Ev.
Qed.

End FitCache.

(** ** The grid search *)

Lemma mem_py_range (a b d : int) : (d \in py_range a b) = (a <= d < b).
Proof.
apply/mapP/idP => [[i] | /andP[le_ad lt_db]].
- rewrite mem_iota /= add0n => lt_i ->.
  rewrite lerDl /= -ltrBrDl.
  by case: (b - a) lt_i => n //=; rewrite ltz_nat.
- have: 0 <= d - a by rewrite subr_ge0.
  case E: (d - a) => [i|] // _; exists i; last by rewrite -E addrC subrK.
  rewrite mem_iota /= add0n.
  have: d - a < b - a by rewrite ltrD2r.
  by rewrite E; case: (b - a) => n.
Qed.

Lemma sorted_py_range (a b : int) : sorted <%R (py_range a b).
Proof.
rewrite /py_range.
apply: (@homo_sorted _ _ (fun i : nat => a + i%:Z) ltn <%R);
  last exact: iota_ltn_sorted.
by move=> i j lt_ij; rewrite ltrD2l ltz_nat.
Qed.

Lemma mem_default_delay_grid self (d : int) :
  (Some d \in default_delay_grid self) = (2 <= d <= max_delay self).
Proof.
rewrite /default_delay_grid mem_map ?mem_py_range ?ltzD1 //.
by move=> x y [].
Qed.

Section ScanCandidates.

Variable self : SETAR.
Variable objective : int -> seq pyval -> result rat.
Variable others : seq pyval.

Local Notation value := (candidate_value objective others).

Lemma scan_candidates_cat acc c1 c2 :
  scan_candidates objective others acc (c1 ++ c2)
  = do acc' <- scan_candidates objective others acc c1;
    scan_candidates objective others acc' c2.
Proof.
elim: c1 acc => [|c c1 IH] acc //=.
by case: try_candidate => [acc'|e] //=.
Qed.

Lemma scan_thresholds_flat d acc g :
  scan_thresholds objective others d acc g
  = scan_candidates objective others acc [seq (d, t) | t <- g].
Proof.
elim: g acc => [|t g IH] acc //=.
by case: try_candidate => [acc'|e] //=.
Qed.

Lemma scan_delays_flat gs acc dg b :
  scan_delays self objective others gs acc dg = Ok b ->
  scan_candidates objective others acc (candidates self gs dg) = Ok b.
Proof.
elim: dg acc => [|[d|] dg IH] acc //=.
case: threshold_grid => [g|e] //=.
rewrite scan_candidates_cat scan_thresholds_flat.
by case: scan_candidates => [acc'|e] //=; exact: IH.
Qed.

(** The running best only grows, ends above every scored candidate, and
    if it changed it sits at the first candidate that reaches the final
    value. *)
Lemma scan_candidates_first_max acc cands p m :
  scan_candidates objective others acc cands = Ok (p, m) ->
  [/\ acc.2 <= m,
      forall j v, (j < size cands)%N ->
        value (nth (0, 0) cands j) = Ok v -> v <= m
    & (p, m) = acc
      \/ exists k,
           [/\ (k < size cands)%N, p = Some (nth (0, 0) cands k),
               value (nth (0, 0) cands k) = Ok m, acc.2 < m
             & forall j v, (j < k)%N ->
                 value (nth (0, 0) cands j) = Ok v -> v < m]].
Proof.
elim: cands acc => [|c cands IH] acc /=.
  by case: acc => q n [-> ->]; split=> //; left.
rewrite /try_candidate.
have -> : objective c.1 (np_sort (Some c.2 :: others)) = value c by [].
have head_val P : (forall w, value c = Ok w -> P w) ->
    (forall j w, (j < size cands)%N ->
       value (nth (0, 0) cands j) = Ok w -> P w) ->
    forall j w, (j < (size cands).+1)%N ->
      value (nth (0, 0) (c :: cands) j) = Ok w -> P w.
  by move=> P0 PS [|j] w /=; [move=> _; exact: P0 | exact: PS].
case Ev: (value c) => [v|e]; last first.
  case: e Ev => [|i||||] Ev //= /IH[le_m all_le first]; split=> //.
  - by apply: head_val => // w; rewrite Ev.
  - case: first => [-> | [k [lt_k -> val_k lt_m before]]]; first by left.
    right; exists k.+1; split=> //.
    by case=> [|j] w //=; [rewrite Ev | exact: before].
case: ltP => [lt_v | le_v] /= /IH[/= le_m all_le first].
- split; first exact: le_trans (ltW lt_v) le_m.
  + by apply: head_val => // w; rewrite Ev => -[<-].
  + right; case: first => [[-> Em] | [k [lt_k -> val_k lt_m before]]].
    * by exists 0%N; rewrite Em; split=> //=; rewrite -surjective_pairing.
    * exists k.+1; split=> //; first exact: lt_trans lt_v lt_m.
      by case=> [|j] w //=; [rewrite Ev => _ [<-] | exact: before].
- split=> //.
  + by apply: head_val => // w; rewrite Ev => -[<-]; exact: le_trans le_v le_m.
  + case: first => [-> | [k [lt_k -> val_k lt_m before]]]; first by left.
    right; exists k.+1; split=> //.
    case=> [|j] w //=; last exact: before.
    by rewrite Ev => _ [<-]; exact: le_lt_trans le_v lt_m.
Qed.

End ScanCandidates.

Lemma scan_thresholds_ext obj obj' others (d : int) acc g :
  (forall ths, obj' d ths = obj d ths) ->
  scan_thresholds obj' others d acc g = scan_thresholds obj others d acc g.
Proof.
move=> eq_obj; elim: g acc => [|t g IH] acc //=.
rewrite /try_candidate eq_obj; case: (obj d _) => [v|[]] //=.
by case: ifP => _ /=.
Qed.

Lemma scan_delays_ext self obj obj' others gs acc dg :
  (forall d ths, Some d \in dg -> obj' d ths = obj d ths) ->
  scan_delays self obj' others gs acc dg
  = scan_delays self obj others gs acc dg.
Proof.
elim: dg acc => [|[d|] dg IH] acc eq_obj //=.
case: threshold_grid => [g|e] //=.
have eq_d ths : obj' d ths = obj d ths by apply: eq_obj; rewrite inE eqxx.
rewrite (scan_thresholds_ext _ _ _ eq_d).
case: scan_thresholds => [acc'|e] //=; apply: IH => d' ths in_dg.
by apply: eq_obj; rewrite inE in_dg orbT.
Qed.

Lemma mem_candidates self gs dg c :
  c \in candidates self gs dg -> Some c.1 \in dg.
Proof.
elim: dg => [|[d|] dg IH] //=; rewrite mem_cat inE => /orP[].
- by case: threshold_grid => [g|e] // /mapP[t _ ->]; rewrite eqxx.
- by move/IH=> ->; rewrite orbT.
Qed.

(** C9. With the delay grid not overridden, the grid search runs over the
    delays [2, ..., max_delay] in ascending order and over no other: its
    answer does not depend on what the objective would be at any other
    delay, such as 1. When it answers with a pair [(delay, threshold)],
    that pair is a candidate met in the loops, its objective is the
    returned maximum and is positive, no scored candidate has a larger
    objective, and every candidate met before it has a strictly smaller
    one (first found wins under strict [>]). *)
Theorem seed_grid_search_first_maximum
    (self : SETAR) (objective : int -> seq pyval -> result rat)
    (others : seq pyval) (gs : nat) :
  let cands := candidates self gs (default_delay_grid self) in
  let value := candidate_value objective others in
  [/\ forall d : int,
        (Some d \in default_delay_grid self) = (2 <= d <= max_delay self),
      default_delay_grid self
      = [seq Some d | d <- py_range 2 (max_delay self + 1)]
      /\ sorted <%R (py_range 2 (max_delay self + 1)),
      forall objective' : int -> seq pyval -> result rat,
        (forall d ths, 2 <= d <= max_delay self ->
           objective' d ths = objective d ths) ->
        select_hyperparameters_grid self objective' others gs None
        = select_hyperparameters_grid self objective others gs None
    & forall d t m,
        select_hyperparameters_grid self objective others gs None
        = Ok (Some (d, t), m) ->
        exists k,
          [/\ (k < size cands)%N /\ nth (0, 0) cands k = (d, t),
              2 <= d <= max_delay self,
              value (d, t) = Ok m /\ 0 < m,
              forall j v, (j < size cands)%N ->
                value (nth (0, 0) cands j) = Ok v -> v <= m
            & forall j v, (j < k)%N ->
                value (nth (0, 0) cands j) = Ok v -> v < m]].
Proof.
move=> cands value; split.
- exact: mem_default_delay_grid.
- by split=> //; exact: sorted_py_range.
- move=> objective' eq_obj; apply: scan_delays_ext => d ths.
  by rewrite mem_default_delay_grid; exact: eq_obj.
- move=> d t m /scan_delays_flat/scan_candidates_first_max.
  rewrite -/cands; case=> _ all_le [[] // | [k [lt_k [Ek] val_k lt_m before]]].
  exists k; split=> //.
  + rewrite -mem_default_delay_grid.
    by apply: (@mem_candidates self gs _ (d, t)); rewrite Ek mem_nth.
  + by rewrite /value Ek.
Qed.

Lemma seed_grid_search_first_maximum_witness :
  let self := periodic_model in
  let cands := candidates self 100 (default_delay_grid self) in
  let value := candidate_value flat_objective [::] in
  exists k,
    [/\ (k < size cands)%N /\ nth (0, 0) cands k = (2 : int, 2),
        (2 : int) <= 2 <= max_delay self,
        value (2 : int, 2) = Ok 1 /\ (0 : rat) < 1,
        forall j v, (j < size cands)%N ->
          value (nth (0, 0) cands j) = Ok v -> v <= 1
      & forall j v, (j < k)%N ->
          value (nth (0, 0) cands j) = Ok v -> v < 1].
Proof.
have [_ _ _] :=
  @seed_grid_search_first_maximum periodic_model flat_objective [::] 100.
by apply; vm_compute.
Defined.

(** ** The objective as a quadratic form *)

Section QuadraticForm.

Variables (n k c : nat).
Variables (X : 'M[rat]_(n, k)) (X1 : 'M[rat]_(n, c)).

Let G : 'M[rat]_k := X^T *m X.
Let XX : 'M[rat]_k := invmx G.

(** The residual maker [I - X (X'X)^-1 X']. *)
Let Q : 'M[rat]_n := 1%:M - X *m XX *m X^T.

Hypothesis G_unit : G \in unitmx.

Lemma sq_col_ge0 (m : nat) (u : 'cV[rat]_m) : 0 <= (u^T *m u) 0 0.
Proof.
rewrite mxE; apply: sumr_ge0 => i _.
by rewrite !mxE -expr2 sqr_ge0.
Qed.

Lemma gram_sym : G^T = G.
Proof. by rewrite /G trmx_mul trmxK. Qed.

Lemma inv_gram_sym : XX^T = XX.
Proof. by rewrite /XX trmx_inv gram_sym. Qed.

Lemma residual_maker_sym : Q^T = Q.
Proof.
rewrite /Q linearB /= trmx1 !trmx_mul trmxK inv_gram_sym mulmxA.
by [].
Qed.

Lemma residual_maker_idem : Q *m Q = Q.
Proof.
have PP : (X *m XX *m X^T) *m (X *m XX *m X^T) = X *m XX *m X^T.
  rewrite !mulmxA -(mulmxA _ X^T X) -/G -(mulmxA X XX G).
  by rewrite /XX mulVmx // mulmx1.
by rewrite /Q mulmxBl mul1mx mulmxBr mulmx1 PP subrr subr0.
Qed.

(** The matrix the objective inverts is [X1' Q X1]. *)
Lemma inner_as_projection :
  X1^T *m X1 - (X^T *m X1)^T *m XX *m (X^T *m X1) = X1^T *m Q *m X1.
Proof.
rewrite /Q mulmxBr mulmx1 mulmxBl trmx_mul trmxK; congr (_ - _).
by rewrite !mulmxA.
Qed.

Lemma quadratic_form_ge0 (r : 'cV[rat]_n) :
  let M := X1^T *m X1 - (X^T *m X1)^T *m XX *m (X^T *m X1) in
  M \in unitmx ->
  0 <= (r^T *m X1 *m invmx M *m X1^T *m r) 0 0.
Proof.
move=> M M_unit.
have M_sym : M^T = M.
  by rewrite /M inner_as_projection !trmx_mul trmxK residual_maker_sym mulmxA.
pose w : 'cV[rat]_c := invmx M *m (X1^T *m r).
pose u : 'cV[rat]_n := Q *m (X1 *m w).
have Mw : M *m w = X1^T *m r by rewrite /w mulKVmx.
suff -> : r^T *m X1 *m invmx M *m X1^T *m r = u^T *m u by exact: sq_col_ge0.
have -> : r^T *m X1 *m invmx M *m X1^T *m r = (X1^T *m r)^T *m w.
  by rewrite /w trmx_mul trmxK !mulmxA.
rewrite -Mw trmx_mul M_sym /M inner_as_projection.
rewrite /u !trmx_mul residual_maker_sym !mulmxA.
by rewrite -(mulmxA _ Q Q) residual_maker_idem.
Qed.

End QuadraticForm.

Lemma cached_XX_ok self XX :
  cached_XX self = Ok XX ->
  (design self)^T *m design self \in unitmx
  /\ XX = invmx ((design self)^T *m design self).
Proof. by rewrite /cached_XX /np_linalg_inv; case: ifP => // ? [<-]. Qed.

Lemma size_build_datasets self (d : int) ths ord yx :
  (1 <= d) && (d <= (ar_order self)%:Z) ->
  build_datasets self d ths ord = Ok yx -> size yx.2 = nrows self.
Proof.
move=> d_ok; rewrite build_datasets_aligned //.
case: ifP => // _; set n := (if ord is Some o then o else _).
case: n => [|n] //=; set ind := regime_indicators _ _ _.
have sz_ind : size ind = size (design_rows self).
  exact: size_regime_indicators.
have all_sz :
    all (fun b => size b == size (masked_block ind (design_rows self) 0))
        [seq masked_block ind (design_rows self) i | i <- iota 1 n].
  by apply/allP => b /mapP[i _ ->]; rewrite !size_masked_block.
rewrite all_sz /=; case=> <- /=.
by have [-> _] := foldl_hcat all_sz; rewrite size_masked_block.
Qed.

(** Whenever the objective returns, with the cached inverse Gram matrix,
    its value is not negative. *)
Lemma grid_search_objective_ge0 self (d : int) ths XX resids v :
  cached_XX self = Ok XX ->
  grid_search_objective self d ths XX resids = Ok v -> 0 <= v.
Proof.
case/cached_XX_ok => G_unit ->; rewrite /grid_search_objective.
case: build_datasets => [yx|e] //=; case: ifP => // _.
rewrite /np_linalg_inv; case: ifP => //= M_unit; case: ifP => // _ [<-].
exact: quadratic_form_ge0.
Qed.

(** C6. With the baseline quantities cached by [select_hyperparameters],
    for every candidate with a delay within [1, ar_order] on which the
    partitioner succeeds and whose inner matrix
    [X1'X1 - X1'X XX X'X1] is invertible, the objective returns a value,
    and that value is not negative. *)
Theorem grid_objective_nonnegative
    (self : SETAR) (d : int) (ths : seq pyval)
    (XX : 'M[rat]_(ncols self)) (resids : seq rat)
    (yx : seq rat * seq (seq rat)) :
  cached_XX self = Ok XX ->
  (1 <= d) && (d <= (ar_order self)%:Z) ->
  build_datasets self d ths (Some (size ths).+1) = Ok yx ->
  inner_matrix
    (mx_of_rows (nrows self) (size ths * ncols self)
       (drop_last_block self yx.2)) XX \in unitmx ->
  size resids = nrows self ->
  exists2 v, grid_search_objective self d ths XX resids = Ok v & 0 <= v.
Proof.
move=> cached d_ok built M_unit sz_r.
have sz_x := size_build_datasets d_ok built.
have [v Ev] : exists v, grid_search_objective self d ths XX resids = Ok v.
  rewrite /grid_search_objective built /= /drop_last_block size_map sz_x eqxx.
  by rewrite /np_linalg_inv M_unit /= sz_r eqxx; eexists.
by exists v => //; exact: grid_search_objective_ge0 cached Ev.
Qed.

(** ** Concrete matrices *)

Lemma invmx_of_right_inverse (n : nat) (A B : 'M[rat]_n) :
  A *m B = 1%:M -> A \in unitmx /\ invmx A = B.
Proof.
move=> AB; have [A_unit _] := mulmx1_unit AB; split=> //.
by rewrite -[LHS]mulmx1 -AB mulKmx.
Qed.

Lemma ramp_gram_inverse :
  (design ramp_model)^T *m design ramp_model *m ramp_gram_inv = 1%:M.
Proof.
apply/matrixP => i j; rewrite !mxE.
rewrite !big_ord_recl big_ord0 !mxE.
rewrite !big_ord_recl !big_ord0 !mxE /=.
by case: i => [[|[|i]] lt_i] //=; case: j => [[|[|j]] lt_j].
Qed.

Example ramp_build_datasets :
  build_datasets ramp_model 1 [:: Some 1] (Some 2) = Ok ramp_dataset.
Proof. by []. Qed.

Lemma ramp_inner_inverse :
  inner_matrix
    (mx_of_rows (nrows ramp_model) (1 * ncols ramp_model)
       (drop_last_block ramp_model ramp_dataset.2)) ramp_gram_inv
  *m ramp_inner_inv = 1%:M.
Proof.
apply/matrixP => i j; rewrite /inner_matrix.
do ![rewrite !mxE | rewrite !big_ord_recl | rewrite !big_ord0].
rewrite /=.
by case: i => [[|[|i]] lt_i] //=; case: j => [[|[|j]] lt_j].
Qed.

Lemma size_seq_of_col (n : nat) (v : 'cV[rat]_n) : size (seq_of_col v) = n.
Proof. by rewrite /seq_of_col size_map size_enum_ord. Qed.

Lemma ramp_cached_XX : cached_XX ramp_model = Ok ramp_gram_inv.
Proof.
rewrite /cached_XX /np_linalg_inv.
by have [-> ->] := invmx_of_right_inverse ramp_gram_inverse.
Qed.

Lemma grid_objective_nonnegative_witness :
  exists2 v,
    grid_search_objective ramp_model 1 [:: Some 1] ramp_gram_inv
      (@cached_resids ramp_model ramp_gram_inv) = Ok v
    & 0 <= v.
Proof.
apply: (@grid_objective_nonnegative ramp_model 1 [:: Some 1] ramp_gram_inv
          _ ramp_dataset).
- exact: ramp_cached_XX.
- by [].
- exact: ramp_build_datasets.
- by have [] := invmx_of_right_inverse ramp_inner_inverse.
- exact: size_seq_of_col.
Defined.

(** ** Numeric failures inside the grid search *)

Lemma inner_matrix_singular self (c : nat)
    (X1 : 'M[rat]_(nrows self, c)) (XX : 'M[rat]_(ncols self))
    (w : 'cV[rat]_c) :
  X1 *m w = 0 -> w != 0 -> inner_matrix X1 XX \notin unitmx.
Proof.
move=> X1w w_neq0; apply/negP => M_unit.
have Mw : inner_matrix X1 XX *m w = 0.
  by rewrite /inner_matrix mulmxBl -!mulmxA X1w !mulmx0 subrr.
by move: w_neq0; rewrite -(mulKmx M_unit w) Mw mulmx0 eqxx.
Qed.

Example periodic_build_datasets :
  build_datasets periodic_model 2 [:: Some 2] (Some 2) = Ok periodic_dataset.
Proof. by []. Qed.

Example unguarded_model_init :
  init unguarded_series 2 3 (Some 2) (Some [:: Some 1]) 0 None 100
  = Ok unguarded_model.
Proof. by []. Qed.

Example unguarded_min_regime_num : min_regime_num unguarded_model = 0.
Proof. by vm_compute. Qed.

Lemma unguarded_gram_inverse :
  (design unguarded_model)^T *m design unguarded_model *m unguarded_gram_inv
  = 1%:M.
Proof.
apply/matrixP => i j; rewrite !mxE.
rewrite !big_ord_recl big_ord0 !mxE.
rewrite !big_ord_recl !big_ord0 !mxE /=.
by case: i => [[|[|[|[|i]]]] lt_i] //=; case: j => [[|[|[|[|j]]]] lt_j].
Qed.

Lemma unguarded_cached_XX :
  cached_XX unguarded_model = Ok unguarded_gram_inv.
Proof.
rewrite /cached_XX /np_linalg_inv.
by have [-> ->] := invmx_of_right_inverse unguarded_gram_inverse.
Qed.

Example unguarded_build_datasets :
  build_datasets unguarded_model 2 [:: Some 0] (Some 2)
  = Ok unguarded_dataset.
Proof. by vm_compute. Qed.

Lemma unguarded_kernelP :
  mx_of_rows (nrows unguarded_model) (1 * ncols unguarded_model)
    (drop_last_block unguarded_model unguarded_dataset.2)
  *m first_column = 0.
Proof.
apply/matrixP => i j.
do ![rewrite !mxE | rewrite !big_ord_recl | rewrite !big_ord0].
rewrite /=.
by case: i => [[|[|[|[|i]]]] lt_i].
Qed.

Lemma first_column_neq0 : first_column != 0.
Proof.
apply/eqP => /matrixP/(_ ord0 ord0).
by rewrite !mxE.
Qed.

(** The first block of the candidate is zero, and so is the matrix that
    the objective hands to [np.linalg.inv]. *)
Lemma unguarded_objective_raises XX resids :
  grid_search_objective unguarded_model 2 [:: Some 0] XX resids
  = Raise LinAlgError.
Proof.
rewrite /grid_search_objective unguarded_build_datasets /=.
rewrite /np_linalg_inv.
by rewrite (negbTE (@inner_matrix_singular _ _ _ XX _ unguarded_kernelP
                      first_column_neq0)).
Qed.

Example unguarded_delay_grid :
  default_delay_grid unguarded_model = [:: Some (2 : int); Some (3 : int)].
Proof. by []. Qed.

Example unguarded_threshold_grid :
  threshold_grid unguarded_model 100 2 = Ok [:: 0; 1; 2].
Proof. by vm_compute. Qed.

Lemma scan_thresholds_cat objective others (d : int) acc g1 g2 :
  scan_thresholds objective others d acc (g1 ++ g2)
  = do acc' <- scan_thresholds objective others d acc g1;
    scan_thresholds objective others d acc' g2.
Proof.
elim: g1 acc => [|t g1 IH] acc //=.
by case: try_candidate => [acc'|e] //=.
Qed.

Lemma scan_delays_cat self objective others gs acc dg1 dg2 :
  scan_delays self objective others gs acc (dg1 ++ dg2)
  = do acc' <- scan_delays self objective others gs acc dg1;
    scan_delays self objective others gs acc' dg2.
Proof.
elim: dg1 acc => [|[d|] dg1 IH] acc //=.
case: threshold_grid => [g|e] //=.
by case: scan_thresholds => [acc'|e] //=.
Qed.

(** The first candidate whose objective raises anything other than
    [InvalidRegimeError] ends the grid search with that exception. *)
Lemma grid_search_raises
    (self : SETAR) (objective : int -> seq pyval -> result rat)
    (others : seq pyval) (gs : nat) (d : int) (t : rat) (e : pyexc)
    (delays_before delays_after : seq (option int))
    (grid_before grid_after : seq rat) (acc1 acc2 : best) :
  objective d (np_sort (Some t :: others)) = Raise e ->
  scan_delays self objective others gs best0 delays_before = Ok acc1 ->
  threshold_grid self gs d = Ok (grid_before ++ t :: grid_after) ->
  scan_thresholds objective others d acc1 grid_before = Ok acc2 ->
  try_candidate objective others d acc2 t
  = (if is_invalid_regime e then Ok acc2 else Raise e)
  /\ (~~ is_invalid_regime e ->
      select_hyperparameters_grid self objective others gs
        (Some (delays_before ++ Some d :: delays_after))
      = Raise e).
Proof.
move=> Ee Ed Eg Et.
have Etry : try_candidate objective others d acc2 t
            = if is_invalid_regime e then Ok acc2 else Raise e.
  by rewrite /try_candidate Ee; case: (e).
split=> // not_inv.
rewrite /select_hyperparameters_grid scan_delays_cat Ed /= Eg /=.
by rewrite scan_thresholds_cat Et /= Etry (negbTE not_inv).
Qed.

(** [select_hyperparameters] has no handler of its own: what the seed
    grid search raises ends the whole search. *)
Lemma seed_failure_ends_search self XX e fuel :
  cached_XX self = Ok XX ->
  @cached_grid self XX (@cached_resids self XX) [::] None = Raise e ->
  select_hyperparameters self fuel = Some (Raise e).
Proof.
by move=> EXX Egrid; rewrite /select_hyperparameters EXX /search Egrid.
Qed.

(** C3 (amended). Inside the grid search only [InvalidRegimeError] is
    absorbed: a candidate raising it leaves the running best as it was.
    Any other exception of the objective, a [LinAlgError] from the
    matrix inversion in particular, is not skipped: at the first candidate
    that raises it the two loops stop and the grid search raises it; and
    what the seed grid search raises leaves [select_hyperparameters]. *)
Theorem grid_search_absorbs_only_invalid_regime
    (self : SETAR) (objective : int -> seq pyval -> result rat)
    (others : seq pyval) (gs : nat) (d : int) (t : rat) (e : pyexc)
    (delays_before delays_after : seq (option int))
    (grid_before grid_after : seq rat) (acc1 acc2 : best) :
  objective d (np_sort (Some t :: others)) = Raise e ->
  scan_delays self objective others gs best0 delays_before = Ok acc1 ->
  threshold_grid self gs d = Ok (grid_before ++ t :: grid_after) ->
  scan_thresholds objective others d acc1 grid_before = Ok acc2 ->
  [/\ try_candidate objective others d acc2 t
      = (if is_invalid_regime e then Ok acc2 else Raise e),
      ~~ is_invalid_regime e ->
      select_hyperparameters_grid self objective others gs
        (Some (delays_before ++ Some d :: delays_after))
      = Raise e
    & forall XX e' fuel,
        cached_XX self = Ok XX ->
        @cached_grid self XX (@cached_resids self XX) [::] None = Raise e' ->
        select_hyperparameters self fuel = Some (Raise e')].
Proof.
move=> Ee Ed Eg Et.
have [Etry Egrid] :=
  @grid_search_raises self objective others gs d t e delays_before
    delays_after grid_before grid_after acc1 acc2 Ee Ed Eg Et.
by split=> // XX e' fuel; apply: seed_failure_ends_search.
Qed.

Lemma grid_search_absorbs_only_invalid_regime_witness :
  let objective := fun d ths =>
    grid_search_objective unguarded_model d ths unguarded_gram_inv
      (@cached_resids unguarded_model unguarded_gram_inv) in
  [/\ try_candidate objective [::] 2 best0 0
      = (if is_invalid_regime LinAlgError then Ok best0
         else Raise LinAlgError),
      ~~ is_invalid_regime LinAlgError ->
      select_hyperparameters_grid unguarded_model objective [::] 100
        (Some ([::] ++ [:: Some (2 : int); Some (3 : int)]))
      = Raise LinAlgError
    & forall XX e' fuel,
        cached_XX unguarded_model = Ok XX ->
        @cached_grid unguarded_model XX (@cached_resids unguarded_model XX)
          [::] None = Raise e' ->
        select_hyperparameters unguarded_model fuel = Some (Raise e')].
Proof.
apply: (@grid_search_absorbs_only_invalid_regime unguarded_model _ [::] 100
          2 0 LinAlgError [::] [:: Some (3 : int)] [::] [:: 1; 2]
          best0 best0).
- exact: unguarded_objective_raises.
- by [].
- exact: unguarded_threshold_grid.
- by [].
Defined.

(** C3, as stated, fails. [unguarded_model] asks for no minimum regime
    size; the first candidate of its seed phase, delay 2 and threshold 0,
    passes the partitioner with an empty regime 0, so the matrix handed
    to [np.linalg.inv] is the zero matrix, and the [LinAlgError] leaves
    the grid search and the whole search. *)
Lemma grid_search_propagates_linalg_error :
  [/\ cached_XX unguarded_model = Ok unguarded_gram_inv,
      build_datasets unguarded_model 2 [:: Some 0] (Some 2)
      = Ok unguarded_dataset,
      @cached_grid unguarded_model unguarded_gram_inv
        (@cached_resids unguarded_model unguarded_gram_inv) [::] None
      = Raise LinAlgError
    & forall fuel,
        select_hyperparameters unguarded_model fuel
        = Some (Raise LinAlgError)].
Proof.
have Egrid :
    @cached_grid unguarded_model unguarded_gram_inv
      (@cached_resids unguarded_model unguarded_gram_inv) [::] None
    = Raise LinAlgError.
  have [_ /(_ isT)] :=
    @grid_search_raises unguarded_model
      (fun d ths =>
         grid_search_objective unguarded_model d ths unguarded_gram_inv
           (@cached_resids unguarded_model unguarded_gram_inv))
      [::] 100 2 0 LinAlgError [::] [:: Some (3 : int)] [::] [:: 1; 2]
      best0 best0
      (unguarded_objective_raises _ _) (erefl _) unguarded_threshold_grid
      (erefl _).
  by [].
split.
- exact: unguarded_cached_XX.
- exact: unguarded_build_datasets.
- exact: Egrid.
- by move=> fuel; apply: seed_failure_ends_search unguarded_cached_XX Egrid.
Qed.

(** * Further properties *)

(** ** The constructor *)

Lemma py_le_total : total py_le.
Proof. by move=> [x|] [y|] //=; exact: le_total. Qed.

Lemma py_le_trans : transitive py_le.
Proof. by move=> [y|] [x|] [z|] //=; exact: le_trans. Qed.

(** The constructor as one test. *)
Lemma initE
    (y : seq rat) (order0 ar_order0 : nat) (delay0 : option int)
    (thresholds0 : option (seq pyval)) (frac : rat)
    (max_delay0 : option int) (grid_size : nat) :
  let delay_ok :=
    if delay0 is Some d then (1 <= d) && (d <= ar_order0%:Z) else true in
  let max_delay_ok :=
    (delay0 != None)
    || (if max_delay0 is Some m then m <= ar_order0%:Z else true) in
  let thresholds_ok :=
    if thresholds0 is Some l then (size l).+1 == order0 else false in
  init y order0 ar_order0 delay0 thresholds0 frac max_delay0 grid_size
  = if [&& delay_ok, max_delay_ok & thresholds_ok]
    then Ok {| endog := y;
               order := order0;
               ar_order := ar_order0;
               min_regime_frac := frac;
               max_delay := if max_delay0 is Some m then m else ar_order0;
               threshold_grid_size := grid_size;
               delay := delay0;
               thresholds := omap np_sort thresholds0;
               regimes := None |}
    else Raise ValueError.
Proof.
rewrite /init /validate_delay /validate_max_delay /validate_thresholds.
case: delay0 => [d|] /=.
- rewrite !ltNge; case: (1 <= d) => //=; case: (d <= _) => //=.
  by case: thresholds0 => [l|] //=; case: eqP.
- case: max_delay0 => [m|] /=.
  + rewrite ltNge; case: (m <= _) => //=.
    by case: thresholds0 => [l|] //=; case: eqP.
  + by case: thresholds0 => [l|] //=; case: eqP.
Qed.

(** X2. A model that the constructor returns holds the supplied
    thresholds sorted ascending: the same values, in order, one fewer than
    the number of regimes; [max_delay] defaults to [ar_order]. *)
Theorem init_sorts_thresholds
    (y : seq rat) (order0 ar_order0 : nat) (delay0 : option int)
    (thresholds0 : option (seq pyval)) (frac : rat)
    (max_delay0 : option int) (grid_size : nat) (self : SETAR) :
  init y order0 ar_order0 delay0 thresholds0 frac max_delay0 grid_size
  = Ok self ->
  exists l l',
    [/\ thresholds0 = Some l /\ thresholds self = Some l',
        sorted py_le l', perm_eq l' l, (size l').+1 = order self
      & max_delay self = (if max_delay0 is Some m then m else ar_order0)
        /\ delay self = delay0].
Proof.
rewrite initE; case: ifP => // /and3P[_ _].
case: thresholds0 => [l|] // /eqP sz_l [<-] /=.
exists l, (np_sort l); split=> //.
- exact: sort_sorted py_le_total _.
- by rewrite /np_sort perm_sort.
- by rewrite /np_sort size_sort.
Qed.

Lemma init_sorts_thresholds_witness :
  exists l l',
    [/\ Some [:: Some 3; Some 1] = Some l
        /\ thresholds
             {| endog := periodic_series; order := 3; ar_order := 2;
                min_regime_frac := 1 / 10; max_delay := 2;
                threshold_grid_size := 100; delay := None;
                thresholds := Some [:: Some 1; Some 3]; regimes := None |}
           = Some l',
        sorted py_le l', perm_eq l' l, (size l').+1 = 3%N
      & (2 : int) = 2%N /\ (None : option int) = None].
Proof.
apply: (@init_sorts_thresholds periodic_series 3 2 None
          (Some [:: Some 3; Some 1]) (1 / 10) None 100).
by [].
Defined.

(** ** The partitioner, further *)

Lemma size_lagged_row y p t : size (lagged_row y p t) = p.+1.
Proof. by rewrite /lagged_row /= size_map size_iota. Qed.

Lemma width_design_rows self :
  all (fun r => size r == ncols self) (design_rows self).
Proof.
apply/allP => r /mem_drop /mapP[t _ ->].
by rewrite size_lagged_row.
Qed.

Lemma size_mask_row b r : size (mask_row b r) = size r.
Proof. by case: b => //=; rewrite size_nseq. Qed.

Lemma size_flatten_masked (P : pred nat) (row : seq rat) (s : seq nat) :
  size (flatten [seq mask_row (P i) row | i <- s]) = (size s * size row)%N.
Proof.
elim: s => [|i s IH] //=.
by rewrite size_cat size_mask_row IH mulSn.
Qed.

(** The rows of a partitioned design that [build_datasets] returns. *)
Lemma build_datasets_rows self (d : int) ths ord y x :
  (1 <= d) && (d <= (ar_order self)%:Z) ->
  build_datasets self d ths ord = Ok (y, x) ->
  let n := if ord is Some o then o else order self in
  let ind := regime_indicators self d ths in
  [/\ y = drop (nobs_initial self) (endog self), size x = nrows self
    & forall r,
        nth [::] x r
        = flatten [seq mask_row (nth 0%N ind r == i)
                         (nth [::] (design_rows self) r)
                  | i <- iota 0 n]].
Proof.
move=> d_ok; rewrite build_datasets_aligned // => E n ind.
have sz_ind : size ind = size (design_rows self).
  exact: size_regime_indicators.
move: E; rewrite -/n -/ind; case: ifP => // _.
case: n => [|n] //=.
have all_sz :
    all (fun b => size b == size (masked_block ind (design_rows self) 0))
        [seq masked_block ind (design_rows self) i | i <- iota 1 n].
  by apply/allP => b /mapP[i _ ->]; rewrite !size_masked_block.
rewrite all_sz /=; case=> <- <-.
have [sz_x nth_x] := foldl_hcat all_sz.
split=> //; first by rewrite sz_x size_masked_block.
move=> r; rewrite nth_x nth_masked_block //; congr (_ ++ _).
rewrite -map_comp; congr flatten; apply: eq_map => i /=.
by rewrite nth_masked_block.
Qed.

(** X3. For a delay within [1, ar_order], a successful [build_datasets]
    returns a response of [len(endog) - ar_order] values and a design with
    as many rows, each of width [order * (ar_order + 1)]. *)
Theorem build_datasets_shape
    (self : SETAR) (d : int) (ths : seq pyval) (ord : option nat)
    (y : seq rat) (x : seq (seq rat)) :
  (1 <= d) && (d <= (ar_order self)%:Z) ->
  build_datasets self d ths ord = Ok (y, x) ->
  let n := if ord is Some o then o else order self in
  [/\ size y = (size (endog self) - ar_order self)%N,
      size x = (size (endog self) - ar_order self)%N
    & all (fun r => size r == (n * (ar_order self).+1)%N) x].
Proof.
move=> d_ok built n.
have [-> sz_x nth_x] := build_datasets_rows d_ok built.
split; first by rewrite size_drop.
- by rewrite sz_x /nrows size_design_rows.
- apply/(all_nthP [::]) => r lt_r.
  rewrite nth_x size_flatten_masked size_iota -/n.
  have lt_r' : (r < size (design_rows self))%N by rewrite -/(nrows self) -sz_x.
  by have /eqP -> := allP (width_design_rows self) _ (mem_nth [::] lt_r').
Qed.

Lemma build_datasets_shape_witness :
  [/\ size ramp_dataset.1 = (size (endog ramp_model) - ar_order ramp_model)%N,
      size ramp_dataset.2 = (size (endog ramp_model) - ar_order ramp_model)%N
    & all (fun r => size r == (2 * (ar_order ramp_model).+1)%N)
          ramp_dataset.2].
Proof.
apply: (@build_datasets_shape ramp_model 1 [:: Some 1] (Some 2)
          ramp_dataset.1 ramp_dataset.2).
- by [].
- exact: ramp_build_datasets.
Defined.

(** X4. For a delay within [1, ar_order], the regime that
    [InvalidRegimeError] names is the first one of [range(order)] with
    fewer than [min_regime_num] observations. *)
Theorem invalid_regime_names_first_small
    (self : SETAR) (d : int) (ths : seq pyval) (i : nat) :
  (1 <= d) && (d <= (ar_order self)%:Z) ->
  let ind := regime_indicators self d ths in
  build_datasets self d ths None = Raise (InvalidRegimeError i)
  <-> [/\ (i < order self)%N, too_small self ind i
        & forall j, (j < i)%N -> ~~ too_small self ind j].
Proof.
move=> d_ok ind; rewrite build_datasets_aligned // -/ind.
set s := iota 0 (order self); set P := too_small self ind.
split.
- case: ifP => [has_s [<-] | _]; last first.
    by rewrite /np_concatenate1; case: map => [|b0 bs] //=; case: ifP.
  have lt_f : (find P s < order self)%N.
    by have := has_s; rewrite has_find size_iota.
  rewrite nth_iota // add0n; split=> //.
  + by have := nth_find 0%N has_s; rewrite nth_iota // add0n.
  + move=> j lt_j; have := before_find 0%N lt_j.
    by rewrite nth_iota ?add0n ?(ltn_trans lt_j) // => ->.
- case=> lt_i Pi before.
  have has_s : has P s by apply/hasP; exists i; rewrite // mem_iota.
  rewrite has_s; congr (Raise (InvalidRegimeError _)).
  have lt_f : (find P s < order self)%N.
    by have := has_s; rewrite has_find size_iota.
  rewrite nth_iota // add0n; apply/eqP; rewrite eqn_leq; apply/andP; split.
  + rewrite leqNgt; apply/negP => lt_if.
    by have := before_find 0%N lt_if; rewrite nth_iota // add0n -/P Pi.
  + rewrite leqNgt; apply/negP => /before.
    by have := nth_find 0%N has_s; rewrite nth_iota // add0n => ->.
Qed.

Lemma invalid_regime_names_first_small_witness :
  let self := periodic_model in
  let ind := regime_indicators self 2 [:: Some 0] in
  build_datasets self 2 [:: Some 0] None = Raise (InvalidRegimeError 0)
  <-> [/\ (0 < order self)%N, too_small self ind 0
        & forall j, (j < 0)%N -> ~~ too_small self ind j].
Proof.
exact: (@invalid_regime_names_first_small periodic_model 2 [:: Some 0] 0 isT).
Defined.

Example periodic_invalid_regime :
  build_datasets periodic_model 2 [:: Some 0] None
  = Raise (InvalidRegimeError 0).
Proof. by []. Qed.

Lemma regime_countE ind i : regime_count ind i = count (pred1 i) ind.
Proof. by rewrite /regime_count /in_regime count_map. Qed.

Lemma sum_nat_of_bool (P : pred nat) (s : seq nat) :
  (\sum_(i <- s) P i)%N = count P s.
Proof.
elim: s => [|i s IH]; first by rewrite big_nil.
by rewrite big_cons IH.
Qed.

Lemma sum_regime_count ind n :
  (\sum_(0 <= i < n) regime_count ind i)%N = count (fun j => j < n)%N ind.
Proof.
elim: ind => [|j ind IH] /=.
  by rewrite big1 // => i _; rewrite regime_countE.
rewrite -IH /index_iota subn0.
rewrite -(count_regime_of j n) -sum_nat_of_bool -big_split /=.
by apply: eq_bigr => i _; rewrite !regime_countE /= eq_sym.
Qed.

(** X5. For a delay within [1, ar_order] and [order - 1] thresholds, the
    regime sizes add up to the number of rows: no observation is lost and
    none is counted twice. *)
Theorem regime_counts_sum_to_nobs
    (self : SETAR) (d : int) (ths : seq pyval) :
  (1 <= d) && (d <= (ar_order self)%:Z) ->
  size ths = (order self).-1 -> (0 < order self)%N ->
  (\sum_(0 <= i < order self)
      regime_count (regime_indicators self d ths) i)%N
  = (size (endog self) - ar_order self)%N.
Proof.
move=> d_ok sz_ths ord_gt0; rewrite sum_regime_count.
rewrite -size_design_rows -(size_regime_indicators ths d_ok).
apply/eqP; rewrite -all_count; apply/(all_nthP 0%N) => r _.
exact: nth_regime_indicators_lt.
Qed.

Lemma regime_counts_sum_to_nobs_witness :
  let ind := regime_indicators periodic_model 2 [:: Some 2] in
  (\sum_(0 <= i < order periodic_model) regime_count ind i)%N
  = (size (endog periodic_model) - ar_order periodic_model)%N.
Proof.
exact: (@regime_counts_sum_to_nobs periodic_model 2 [:: Some 2]
          isT (erefl _) isT).
Defined.

Lemma searchsorted_mono (a : seq pyval) (v v' : rat) :
  v <= v' -> (searchsorted a v <= searchsorted a v')%N.
Proof.
move=> le_v; elim: a => [|x a IH] //=.
case: x => [x|] /=; last by rewrite ltnS.
case: ltP => // lt_xv.
by rewrite (lt_le_trans lt_xv le_v) ltnS.
Qed.

(** X6. For sorted thresholds the regime index never decreases with the
    threshold variable: of two rows, the one with the larger lagged value
    is in the same or in a higher regime. *)
Theorem regime_index_monotone
    (self : SETAR) (d : int) (ths : seq pyval) (r r' : nat) :
  sorted py_le ths ->
  (r < size (threshold_variable self d))%N ->
  (r' < size (threshold_variable self d))%N ->
  nth 0 (threshold_variable self d) r <= nth 0 (threshold_variable self d) r' ->
  (nth 0%N (regime_indicators self d ths) r
   <= nth 0%N (regime_indicators self d ths) r')%N.
Proof.
move=> _ lt_r lt_r' le_v.
by rewrite !(nth_map 0) //; exact: searchsorted_mono.
Qed.

Lemma regime_index_monotone_witness :
  let ind := regime_indicators periodic_model 2 [:: Some 1; Some 2] in
  (nth 0%N ind 0 <= nth 0%N ind 2)%N.
Proof.
exact: (@regime_index_monotone periodic_model 2 [:: Some 1; Some 2] 0 2
          isT isT isT isT).
Defined.

(** X7. With no threshold and one regime the partitioner masks nothing:
    for a delay within [1, ar_order] it returns the lagged design as it
    is, unless there are fewer rows than [min_regime_num], in which case
    regime 0 is rejected. *)
Theorem single_regime_is_whole_design (self : SETAR) (d : int) :
  (1 <= d) && (d <= (ar_order self)%:Z) ->
  build_datasets self d [::] (Some 1%N)
  = if (nrows self)%:Z < min_regime_num self
    then Raise (InvalidRegimeError 0)
    else Ok (drop (nobs_initial self) (endog self), design_rows self).
Proof.
move=> d_ok; rewrite build_datasets_aligned //=.
set ind := regime_indicators _ _ _.
have sz_ind : size ind = size (design_rows self).
  exact: size_regime_indicators.
have ind0 : ind = nseq (size (design_rows self)) 0%N.
  rewrite -sz_ind /ind /regime_indicators size_map.
  by elim: (threshold_variable _ _) => [|v s /= ->].
rewrite orbF /too_small regime_countE ind0.
have -> : count (pred1 0%N) (nseq (size (design_rows self)) 0%N) = nrows self.
  by rewrite count_nseq /= mul1n.
case: ifP => [-> | _] //; congr (Ok (_, _)).
rewrite /masked_block /in_regime map_nseq /=.
by elim: (design_rows self) => [|row rows /= ->].
Qed.

Lemma single_regime_is_whole_design_witness :
  build_datasets ramp_model 1 [::] (Some 1%N)
  = if (nrows ramp_model)%:Z < min_regime_num ramp_model
    then Raise (InvalidRegimeError 0)
    else Ok (drop (nobs_initial ramp_model) (endog ramp_model),
             design_rows ramp_model).
Proof. exact: (@single_regime_is_whole_design ramp_model 1 isT). Defined.

(** ** The grid search, further *)

Lemma np_take_nat (a : seq rat) (js : seq nat) :
  all (fun j => j < size a)%N js ->
  np_take a [seq Posz j | j <- js] = Ok [seq nth 0 a j | j <- js].
Proof.
elim: js => [|j js IH] //= /andP[lt_j /IH ->].
by rewrite lt_j.
Qed.

Lemma clip0_subn (a b : nat) : clip0 (a%:Z - b%:Z) = (a - b)%N.
Proof.
case: (leqP b a) => [le_ba | lt_ab]; first by rewrite subzn.
have /eqP -> : (a - b == 0)%N by rewrite subn_eq0 ltnW.
rewrite -opprB subzn 1?ltnW //.
by case: (b - a)%N (subn_gt0 a b) lt_ab => [|k] // ->.
Qed.

Lemma np_arange_nat (m n step : nat) :
  np_arange m%:Z (n%:Z - m%:Z) step
  = [seq Posz (m + i * step)
    | i <- iota 0 ((n - m - m + step.-1) %/ step)].
Proof.
rewrite /np_arange -addrA -opprD -PoszD clip0_subn subnDA.
by apply: eq_map => i; rewrite PoszD.
Qed.

Lemma ceil_div_bound (L s i : nat) :
  (0 < s)%N -> (i < (L + s.-1) %/ s)%N -> (i * s < L)%N.
Proof.
move=> s_gt0; rewrite leq_divRL // mulSn.
move/ssrnat.ltP: s_gt0 => s_gt0 /ssrnat.leP le_is; apply/ssrnat.ltP.
move: le_is; rewrite -!plusE -!multE.
by case: s s_gt0 => [|s] /=; lia.
Qed.

Lemma np_unique_sorted_lt (a : seq rat) : sorted <%R (np_unique_sorted a).
Proof.
rewrite lt_sorted_uniq_le /np_unique_sorted undup_uniq /=.
by apply: subseq_le_sorted (undup_subseq _) (sort_le_sorted _).
Qed.

Lemma mem_np_unique_sorted (a : seq rat) : np_unique_sorted a =i a.
Proof. by move=> x; rewrite /np_unique_sorted mem_undup mem_sort. Qed.

(** The threshold grid in closed form, for a non-negative
    [min_regime_num]. *)
Lemma threshold_gridE self gs (d : int) (m : nat) :
  min_regime_num self = m ->
  let tv := np_unique_sorted (py_slice_to (endog self) (- d)) in
  let step := maxn (size tv %/ gs) 1 in
  threshold_grid self gs d
  = if gs == 0%N then Raise ZeroDivisionError
    else Ok [seq nth 0 tv (m + i * step)
            | i <- iota 0 ((size tv - m - m + step.-1) %/ step)].
Proof.
move=> Em tv step; rewrite /threshold_grid -/tv Em; case: ifP => // _.
rewrite -/step np_arange_nat.
set s := iota 0 _.
have -> : [seq Posz (m + i * step) | i <- s]
          = [seq Posz j | j <- [seq (m + i * step)%N | i <- s]].
  by rewrite -map_comp.
rewrite np_take_nat -?map_comp //.
apply/allP => j /mapP[i]; rewrite mem_iota add0n /= => lt_i ->.
have step_gt0 : (0 < step)%N by rewrite leq_max orbT.
have := ceil_div_bound step_gt0 lt_i.
move: (i * step)%N (size tv) => q n /ssrnat.ltP; rewrite -!minusE => lt_q.
by apply/ssrnat.ltP; rewrite -plusE; lia.
Qed.

Lemma grid_index_trimmed (n m step i : nat) :
  (0 < step)%N -> (i < (n - m - m + step.-1) %/ step)%N ->
  (m + i * step + m < n)%N.
Proof.
move=> step_gt0 /(ceil_div_bound step_gt0).
move: (i * step)%N => q /ssrnat.ltP; rewrite -!minusE => lt_q.
by apply/ssrnat.ltP; rewrite -!plusE; lia.
Qed.

(** X8. With a non-negative [min_regime_num], the threshold grid of a
    delay is built without an index error whenever
    [threshold_grid_size] is not zero (a zero size divides by zero): its
    values are observed values of [endog[:-delay]], strictly ascending,
    and each one has at least [min_regime_num] distinct observed values
    below it and as many above it. *)
Theorem threshold_grid_observed_trimmed_ascending
    (self : SETAR) (gs : nat) (d : int) :
  0 <= min_regime_num self ->
  let tv := np_unique_sorted (py_slice_to (endog self) (- d)) in
  let m := absz (min_regime_num self) in
  if gs == 0%N then threshold_grid self gs d = Raise ZeroDivisionError
  else exists g,
    [/\ threshold_grid self gs d = Ok g, sorted <%R g,
        {subset g <= py_slice_to (endog self) (- d)}
      & all (fun t => (m <= index t tv)%N && (index t tv + m < size tv)%N) g].
Proof.
move=> m_ge0 tv m.
have Em : min_regime_num self = m by rewrite /m gez0_abs.
rewrite (threshold_gridE gs d Em) -/tv; case: (gs == 0%N) => //.
set step := maxn _ 1; set len := (_ %/ _)%N.
have step_gt0 : (0 < step)%N by rewrite leq_max orbT.
have lt_idx i : (i < len)%N -> (m + i * step < size tv)%N.
  by move/(grid_index_trimmed step_gt0)/(leq_trans _); apply; rewrite ltnS leq_addr.
have tv_sorted := np_unique_sorted_lt (py_slice_to (endog self) (- d)).
have tv_uniq : uniq tv by rewrite /tv /np_unique_sorted undup_uniq.
eexists; split; first by [].
- rewrite (map_comp (nth 0 tv) (fun i => (m + i * step)%N)).
  apply: (@homo_sorted_in _ _ (fun j => j < size tv)%N _ ltn).
  + exact: (sorted_ltn_nth lt_trans 0 tv_sorted).
  + by apply/allP => j /mapP[i]; rewrite mem_iota add0n => /lt_idx ? ->.
  + apply: (@homo_sorted _ _ _ ltn) (iota_ltn_sorted 0 len).
    move=> i j lt_ij; rewrite /ltn /= -addnS leq_add2l.
    apply: (@leq_trans (i.+1 * step)%N); last first.
      by rewrite leq_mul2r; apply/orP; right; exact: lt_ij.
    by rewrite mulSn -[X in (X <= _)%N]add1n leq_add2r.
- move=> t /mapP[i]; rewrite mem_iota add0n => /lt_idx lt_i ->.
  by rewrite -mem_np_unique_sorted mem_nth.
- apply/allP => t /mapP[i]; rewrite mem_iota add0n /= => lt_i ->.
  rewrite index_uniq ?lt_idx // leq_addr /=.
  exact: grid_index_trimmed.
Qed.

Lemma threshold_grid_observed_trimmed_ascending_witness :
  let self := periodic_model in
  let tv := np_unique_sorted (py_slice_to (endog self) (- 2)) in
  let m := absz (min_regime_num self) in
  exists g,
    [/\ threshold_grid self 100 2 = Ok g, sorted <%R g,
        {subset g <= py_slice_to (endog self) (- 2)}
      & all (fun t => (m <= index t tv)%N && (index t tv + m < size tv)%N) g].
Proof.
apply: (@threshold_grid_observed_trimmed_ascending periodic_model 100 2).
by vm_compute.
Defined.

(** X9. A grid search that returns answers [(None, None)] exactly when no
    scored candidate has a positive objective, and then its maximum is the
    initial 0; the maximum it returns is never negative. *)
Theorem grid_search_no_winner_iff
    (self : SETAR) (objective : int -> seq pyval -> result rat)
    (others : seq pyval) (gs : nat)
    (delay_grid : option (seq (option int))) (b : best) :
  select_hyperparameters_grid self objective others gs delay_grid = Ok b ->
  let cands := candidates self gs (effective_delay_grid self delay_grid) in
  [/\ 0 <= b.2, b.1 = None -> b.2 = 0
    & b.1 = None
      <-> forall c v, c \in cands ->
            candidate_value objective others c = Ok v -> v <= 0].
Proof.
rewrite /select_hyperparameters_grid -/(effective_delay_grid self delay_grid).
case: b => p m /scan_delays_flat/scan_candidates_first_max.
set cands := candidates _ _ _.
case=> /= m_ge0 all_le [[Ep Em] | [k [lt_k Ep val_k m_gt0 _]]]; split=> //.
- split=> // _ c v /(nthP (0, 0))[j lt_j <-] val.
  by rewrite -Em; exact: all_le val.
- by rewrite Ep.
- rewrite Ep; split=> // no_pos.
  have := no_pos _ _ (mem_nth (0, 0) lt_k) val_k.
  by rewrite leNgt m_gt0.
Qed.

Lemma grid_search_no_winner_iff_witness :
  let b : best := (Some (2 : int, 2), 1) in
  let cands :=
    candidates periodic_model 100
      (effective_delay_grid periodic_model None) in
  [/\ 0 <= b.2, b.1 = None -> b.2 = 0
    & b.1 = None
      <-> forall c v, c \in cands ->
            candidate_value flat_objective [::] c = Ok v -> v <= 0].
Proof.
apply: (@grid_search_no_winner_iff periodic_model flat_objective [::] 100
          None (Some (2 : int, 2), 1)).
by vm_compute.
Defined.

Lemma default_delay_grid_empty self :
  max_delay self < 2 -> default_delay_grid self = [::].
Proof.
rewrite /default_delay_grid /py_range => lt_md.
have: max_delay self + 1 - 2 <= 0 by rewrite subr_le0 -ltzD1 ltrD2r.
by case: (max_delay self + 1 - 2) => [[|n]|n].
Qed.

(** X10. When [max_delay] is below 2 (as with [ar_order = 1] and the
    default [max_delay]) the seed phase has no delay to try: whatever the
    objective, the grid search with the default delay grid evaluates
    nothing and answers [(None, None)] with maximum 0. *)
Theorem seed_search_finds_nothing_below_delay_2
    (self : SETAR) (objective : int -> seq pyval -> result rat)
    (others : seq pyval) (gs : nat) :
  max_delay self < 2 ->
  select_hyperparameters_grid self objective others gs None = Ok best0
  /\ candidates self gs (default_delay_grid self) = [::].
Proof.
move=> lt_md.
by rewrite /select_hyperparameters_grid default_delay_grid_empty.
Qed.

Lemma seed_search_finds_nothing_below_delay_2_witness :
  select_hyperparameters_grid ramp_model flat_objective [::] 100 None
  = Ok best0
  /\ candidates ramp_model 100 (default_delay_grid ramp_model) = [::].
Proof.
exact: (@seed_search_finds_nothing_below_delay_2 ramp_model flat_objective
          [::] 100 isT).
Defined.

(** ** The search, further *)

Section SearchShape.

Variable grid : seq pyval -> option (seq (option int)) -> result best.

Lemma size_py_setitem s j v s' :
  py_setitem s j v = Ok s' -> size s' = size s.
Proof.
rewrite /py_setitem; case: ifP => // lt_j [<-].
by rewrite size_set_nth; apply/maxn_idPr.
Qed.

Lemma size_sweep d ths proposed js proposed' :
  sweep grid d ths proposed js = Ok proposed' ->
  size proposed' = size proposed.
Proof.
elim: js proposed => [|j js IH] proposed /=; first by case=> <-.
case: (grid _ _) => [b|e] //=.
case E: py_setitem => [p|e] //= /IH ->.
exact: size_py_setitem E.
Qed.

Lemma size_refine fuel i d it ths r :
  refine grid fuel i d it ths ths = Some (Ok r) ->
  size (ref_thresholds r) = size ths.
Proof.
elim: fuel it ths => [|fuel IH] it ths //=.
case E: sweep => [p|e] //.
case: ifP => _; first by case=> <-.
case: ifP => _; first by case=> <-.
by move/IH=> ->; exact: size_sweep E.
Qed.

Lemma add_thresholds_shape fuel d ths w todo ths' w' :
  add_thresholds grid fuel d ths w todo = Some (Ok (ths', w')) ->
  size ths' = (size ths + size todo)%N
  /\ (w <= w' <= w + size todo)%N.
Proof.
elim: todo ths w => [|i todo IH] ths w /=.
  by case=> <- <-; rewrite !addn0 leqnn.
case: (grid ths _) => [b|e] //.
case E: refine => [[r|e]|] // /IH[-> /andP[le_w le_w']].
rewrite (size_refine E) size_rcons addSnnS; split=> //.
rewrite (leq_trans (leq_addr _ _) le_w) /= (leq_trans le_w') //.
by rewrite -addnA leq_add2l; case: (ref_warned r).
Qed.

End SearchShape.

(** X11. Whatever the grid search answers, a search that returns gives
    back [order - 1] thresholds when [order >= 2] (one threshold for a
    smaller [order]), in ascending order, and has printed at most one
    warning for each threshold after the first. *)
Theorem search_returns_sorted_thresholds
    (grid : seq pyval -> option (seq (option int)) -> result best)
    (fuel order0 : nat) (d : option int) (ths : seq pyval) (w : nat) :
  search grid fuel order0 = Some (Ok (d, ths, w)) ->
  [/\ size ths = (order0 - 2).+1, sorted py_le ths & (w <= order0 - 2)%N].
Proof.
rewrite /search; case: (grid [::] None) => [b|e] //.
case E: add_thresholds => [[[ths' w']|e]|] // [_ <- <-].
have [sz_ths /andP[_ le_w]] := add_thresholds_shape E.
rewrite size_iota add0n /= in sz_ths le_w.
split=> //; first by rewrite /np_sort size_sort sz_ths add1n.
exact: sort_sorted py_le_total _.
Qed.

Lemma search_returns_sorted_thresholds_witness :
  [/\ size [:: Some 101%:Q; Some 102%:Q] = (3 - 2).+1,
      sorted py_le [:: Some 101%:Q; Some 102%:Q] & (1 <= 3 - 2)%N].
Proof.
apply: (@search_returns_sorted_thresholds climbing_grid 101 3 (Some 2)).
by vm_compute.
Defined.

(** X12. Whatever the objective, a delay that the search returns was
    found by the seed phase and lies in [2, max_delay]; with the
    constructor's check [max_delay <= ar_order] it is a delay that
    [build_datasets] can align. *)
Theorem searched_delay_in_seed_range
    (self : SETAR) (objective : int -> seq pyval -> result rat)
    (gs fuel order0 : nat) (d : int) (ths : seq pyval) (w : nat) :
  search (fun others delay_grid =>
            select_hyperparameters_grid self objective others gs delay_grid)
    fuel order0
  = Some (Ok (Some d, ths, w)) ->
  2 <= d <= max_delay self.
Proof.
rewrite /search.
case E: select_hyperparameters_grid => [[[[d' t]|] m]|e] //; last first.
  by case: add_thresholds => [[[ths' w']|?]|].
case: add_thresholds => [[[ths' w']|?]|] // [Ed _ _].
move: E; rewrite /param_delay /= in Ed; rewrite Ed.
move/scan_delays_flat/scan_candidates_first_max.
case=> _ _ [[] // | [k [lt_k [Ek] _ _ _]]].
rewrite -mem_default_delay_grid.
by apply: (@mem_candidates self gs _ (d, t)); rewrite Ek mem_nth.
Qed.

Lemma searched_delay_in_seed_range_witness :
  (2 : int) <= 2 <= max_delay periodic_model.
Proof.
apply: (@searched_delay_in_seed_range periodic_model flat_objective 100 0 2
          2 [:: Some 2] 0).
by vm_compute.
Defined.

(** ** Fitting, further *)

Section FitFurther.

Variable OLSResults : Type.
Variable OLS_fit : seq rat -> seq (seq rat) -> result OLSResults.

Lemma fit_needs_no_fuel_when_set self fuel :
  hyperparameters_unset self = false ->
  fit OLS_fit fuel self = fit OLS_fit 0 self.
Proof. by rewrite /fit => ->. Qed.

Lemma fit_idempotent self fuel v self' fuel' :
  fit OLS_fit fuel self = Some (Ok v, self') ->
  hyperparameters_unset self' = false
  /\ fit OLS_fit fuel' self' = Some (Ok v, self').
Proof.
case unset: (hyperparameters_unset self) => Efit.
- have [_ set' fit0] := fit_reuses_cached_hyperparameters unset Efit.
  by split=> //; rewrite fit_needs_no_fuel_when_set.
- have E0 : fit OLS_fit 0 self = Some (Ok v, self').
    by rewrite -(fit_needs_no_fuel_when_set fuel).
  have Eself : self' = self.
    by move: E0; rewrite /fit unset; case=> _ <-.
  move: E0; rewrite Eself => E0; split=> //.
  by rewrite fit_needs_no_fuel_when_set.
Qed.

Lemma fit_raises_without_delay self fuel XX :
  delay self = None -> max_delay self < 2 -> cached_XX self = Ok XX ->
  fit OLS_fit fuel self
  = Some (Raise TypeError,
          if (order self <= 2)%N
          then set_hyperparameters self None [:: None] else self).
Proof.
move=> d_none lt_md cached.
have Egrid others :
    @cached_grid self XX (cached_resids XX) others None = Ok best0.
  by rewrite /cached_grid /select_hyperparameters_grid
       default_delay_grid_empty.
rewrite /fit /hyperparameters_unset d_none /= /select_hyperparameters cached.
rewrite /search Egrid /=.
case: leqP => [le_ord | lt_ord].
- by have /eqP -> : (order self - 2 == 0)%N by rewrite subn_eq0.
- by case: (order self) lt_ord => [|[|[|n]]].
Qed.

End FitFurther.

(** X13. [fit] is idempotent: once a call has returned normally, the
    model holds a delay and thresholds, and calling [fit] again does not
    search (it needs no sweep of the refinement loop), returns the same
    value and leaves the model as it is. *)
Theorem fit_twice_returns_the_same
    (OLSResults : Type)
    (OLS_fit : seq rat -> seq (seq rat) -> result OLSResults)
    (self self' : SETAR) (fuel fuel' : nat) (v : OLSResults) :
  fit OLS_fit fuel self = Some (Ok v, self') ->
  hyperparameters_unset self' = false
  /\ fit OLS_fit fuel' self' = Some (Ok v, self').
Proof. exact: fit_idempotent. Qed.

Lemma fit_twice_returns_the_same_witness :
  hyperparameters_unset ramp_model = false
  /\ fit echo_fit 0 ramp_model
     = Some (Ok (drop 1 ramp_series, ramp_dataset.2), ramp_model).
Proof.
apply: (@fit_twice_returns_the_same _ echo_fit ramp_model ramp_model 0 0).
by [].
Defined.

(** X14. A model whose delay is unset and whose [max_delay] is below 2
    (as with [ar_order = 1] and the default [max_delay]) cannot be fitted:
    once the baseline Gram matrix is inverted, the seed phase finds no
    delay and [fit] raises [TypeError]. For [order <= 2] the failed call
    has already replaced the model's thresholds by [[None]]. *)
Theorem fit_raises_when_no_delay_can_be_searched
    (OLSResults : Type)
    (OLS_fit : seq rat -> seq (seq rat) -> result OLSResults)
    (self : SETAR) (fuel : nat) (XX : 'M[rat]_(ncols self)) :
  delay self = None -> max_delay self < 2 -> cached_XX self = Ok XX ->
  fit OLS_fit fuel self
  = Some (Raise TypeError,
          if (order self <= 2)%N
          then set_hyperparameters self None [:: None] else self).
Proof. exact: fit_raises_without_delay. Qed.

Lemma fit_raises_when_no_delay_can_be_searched_witness :
  fit echo_fit 0 ramp_model_unset
  = Some (Raise TypeError,
          if (order ramp_model_unset <= 2)%N
          then set_hyperparameters ramp_model_unset None [:: None]
          else ramp_model_unset).
Proof.
apply: (@fit_raises_when_no_delay_can_be_searched _ echo_fit
          ramp_model_unset 0 ramp_gram_inv).
- by [].
- by [].
- exact: ramp_cached_XX.
Defined.

(** ** The objective, further *)

Section QuadraticFormZero.

Variables (n k c : nat).
Variables (X : 'M[rat]_(n, k)) (X1 : 'M[rat]_(n, c)).

Let G : 'M[rat]_k := X^T *m X.
Let XX : 'M[rat]_k := invmx G.
Let Q : 'M[rat]_n := 1%:M - X *m XX *m X^T.
Let M : 'M[rat]_c := X1^T *m X1 - (X^T *m X1)^T *m XX *m (X^T *m X1).

Hypothesis G_unit : G \in unitmx.
Hypothesis M_unit : M \in unitmx.

Lemma sq_col_eq0 (m : nat) (u : 'cV[rat]_m) :
  ((u^T *m u) 0 0 == 0) = (u == 0).
Proof.
rewrite mxE psumr_eq0; first by move=> i _; rewrite !mxE -expr2 sqr_ge0.
apply/allP/eqP => [u0 | -> i _]; last by rewrite !mxE mul0r.
apply/matrixP => i j; rewrite ord1 mxE.
have := u0 i (mem_index_enum _); rewrite !mxE /= -expr2 sqrf_eq0.
by move/eqP.
Qed.

Lemma quadratic_form_eq0 (r : 'cV[rat]_n) :
  ((r^T *m X1 *m invmx M *m X1^T *m r) 0 0 == 0) = (X1^T *m r == 0).
Proof.
have M_proj : M = X1^T *m Q *m X1 by exact: inner_as_projection.
have Q_sym : Q^T = Q by exact: residual_maker_sym.
have Q_idem : Q *m Q = Q by exact: residual_maker_idem.
have M_sym : M^T = M.
  by rewrite M_proj !trmx_mul trmxK Q_sym mulmxA.
pose w : 'cV[rat]_c := invmx M *m (X1^T *m r).
pose u : 'cV[rat]_n := Q *m (X1 *m w).
have Mw : M *m w = X1^T *m r by rewrite /w mulKVmx.
have -> : r^T *m X1 *m invmx M *m X1^T *m r = u^T *m u.
  have -> : r^T *m X1 *m invmx M *m X1^T *m r = (X1^T *m r)^T *m w.
    by rewrite /w trmx_mul trmxK !mulmxA.
  rewrite -Mw trmx_mul M_sym M_proj /u !trmx_mul Q_sym !mulmxA.
  by rewrite -(mulmxA _ Q Q) Q_idem.
rewrite sq_col_eq0; apply/eqP/eqP => [u0 | r0].
- by rewrite -Mw M_proj -Q_idem -!mulmxA -/u u0 !mulmx0.
- by rewrite /u /w r0 !mulmx0.
Qed.

End QuadraticFormZero.

Lemma grid_search_objective_built self (d : int) ths XX resids yx :
  (1 <= d) && (d <= (ar_order self)%:Z) ->
  build_datasets self d ths (Some (size ths).+1) = Ok yx ->
  let X1 := incremental_design self ths yx.2 in
  grid_search_objective self d ths XX resids
  = if inner_matrix X1 XX \in unitmx then
      if size resids == nrows self
      then Ok (quadratic_form X1 (invmx (inner_matrix X1 XX))
                 (col_of_seq (nrows self) resids))
      else Raise ValueError
    else Raise LinAlgError.
Proof.
move=> d_ok built X1; have sz_x := size_build_datasets d_ok built.
rewrite /grid_search_objective built /= /drop_last_block size_map sz_x eqxx.
rewrite /np_linalg_inv /X1 /incremental_design /=.
case: ifP => //= _.
by case: eqP.
Qed.

(** X15. The objective is positive definite in the baseline residuals:
    with the cached inverse Gram matrix and a delay within [1, ar_order],
    a value it returns is 0 exactly when the residuals are orthogonal to
    the incremental regressors ([X1' resids = 0]), and positive
    otherwise. *)
Theorem grid_objective_zero_iff_orthogonal
    (self : SETAR) (d : int) (ths : seq pyval)
    (XX : 'M[rat]_(ncols self)) (resids : seq rat)
    (yx : seq rat * seq (seq rat)) (v : rat) :
  cached_XX self = Ok XX ->
  (1 <= d) && (d <= (ar_order self)%:Z) ->
  build_datasets self d ths (Some (size ths).+1) = Ok yx ->
  grid_search_objective self d ths XX resids = Ok v ->
  let X1 := incremental_design self ths yx.2 in
  let r := col_of_seq (nrows self) resids in
  (v == 0) = (X1^T *m r == 0) /\ (0 < v) = (X1^T *m r != 0).
Proof.
move=> cached d_ok built Ev X1 r.
have v_ge0 := grid_search_objective_ge0 cached Ev.
have [G_unit EXX] := cached_XX_ok cached.
move: Ev; rewrite (grid_search_objective_built _ _ d_ok built) -/X1.
case: ifP => // M_unit; case: ifP => // _ [Ev].
have v0 : (v == 0) = (X1^T *m r == 0).
  rewrite -Ev /quadratic_form -/r.
  move: M_unit; rewrite /inner_matrix EXX => M_unit.
  exact: quadratic_form_eq0.
by split=> //; rewrite lt_neqAle eq_sym v0 v_ge0 andbT.
Qed.

Lemma ramp_objective_returns resids :
  size resids = nrows ramp_model ->
  let X1 := incremental_design ramp_model [:: Some 1] ramp_dataset.2 in
  grid_search_objective ramp_model 1 [:: Some 1] ramp_gram_inv resids
  = Ok (quadratic_form X1 (invmx (inner_matrix X1 ramp_gram_inv))
          (col_of_seq (nrows ramp_model) resids)).
Proof.
move=> sz_r X1.
have M_unit : inner_matrix X1 ramp_gram_inv \in unitmx.
  by have [] := invmx_of_right_inverse ramp_inner_inverse.
rewrite (@grid_search_objective_built ramp_model 1 [:: Some 1] ramp_gram_inv
           resids ramp_dataset isT ramp_build_datasets).
by rewrite -/X1 M_unit sz_r eqxx.
Qed.

Lemma grid_objective_zero_iff_orthogonal_witness :
  let resids := @cached_resids ramp_model ramp_gram_inv in
  let X1 := incremental_design ramp_model [:: Some 1] ramp_dataset.2 in
  let r := col_of_seq (nrows ramp_model) resids in
  let v := quadratic_form X1 (invmx (inner_matrix X1 ramp_gram_inv)) r in
  (v == 0) = (X1^T *m r == 0) /\ (0 < v) = (X1^T *m r != 0).
Proof.
move=> resids X1 r v.
apply: (@grid_objective_zero_iff_orthogonal ramp_model 1 [:: Some 1]
          ramp_gram_inv resids ramp_dataset v).
- exact: ramp_cached_XX.
- by [].
- exact: ramp_build_datasets.
- exact: (ramp_objective_returns (size_seq_of_col _)).
Defined.

Lemma col_of_seq_zero (n : nat) (s : seq rat) :
  all (fun x => x == 0) s -> col_of_seq n s = 0.
Proof.
move=> /allP s0; apply/matrixP => i j; rewrite !mxE.
case: (ltnP i (size s)) => [lt_i | le_i]; last by rewrite nth_default.
by apply/eqP/s0; rewrite mem_nth.
Qed.

(** X16. When the baseline residuals are all zero (the single-regime
    autoregression fits the series exactly) the objective of every
    candidate that it scores is 0, so no candidate beats the initial
    maximum: a grid search that returns answers [(None, None)] with
    maximum 0. *)
Theorem zero_residuals_select_no_threshold
    (self : SETAR) (XX : 'M[rat]_(ncols self)) (resids : seq rat) :
  all (fun x => x == 0) resids ->
  (forall (d : int) ths v,
     grid_search_objective self d ths XX resids = Ok v -> v = 0)
  /\ (forall others gs delay_grid b,
        select_hyperparameters_grid self
          (fun d ths => grid_search_objective self d ths XX resids)
          others gs delay_grid = Ok b ->
        b = best0).
Proof.
move=> r0.
have obj0 (d : int) ths v :
    grid_search_objective self d ths XX resids = Ok v -> v = 0.
  rewrite /grid_search_objective; case: build_datasets => [yx|e] //=.
  case: ifP => // _; case: np_linalg_inv => [Mn|e] //=.
  case: ifP => // _ [<-].
  by rewrite /quadratic_form col_of_seq_zero // mulmx0 mxE.
split=> // others gs delay_grid [p m].
rewrite /select_hyperparameters_grid.
move/scan_delays_flat/scan_candidates_first_max.
case=> _ _ [[-> ->] // | [k [_ _ /obj0 -> /=]]].
by rewrite ltxx.
Qed.

Lemma zero_residuals_select_no_threshold_witness :
  let resids : seq rat := [:: 0; 0; 0; 0] in
  (forall (d : int) ths v,
     grid_search_objective ramp_model d ths ramp_gram_inv resids = Ok v ->
     v = 0)
  /\ (forall others gs delay_grid b,
        select_hyperparameters_grid ramp_model
          (fun d ths =>
             grid_search_objective ramp_model d ths ramp_gram_inv resids)
          others gs delay_grid = Ok b ->
        b = best0).
Proof.
exact: (@zero_residuals_select_no_threshold ramp_model ramp_gram_inv
          [:: 0; 0; 0; 0] isT).
Defined.

(** In exact arithmetic, a candidate whose incremental regressors are
    linearly dependent has a singular inner matrix. *)
Lemma dependent_columns_raise
    (self : SETAR) (d : int) (ths : seq pyval)
    (XX : 'M[rat]_(ncols self)) (resids : seq rat)
    (yx : seq rat * seq (seq rat))
    (w : 'cV[rat]_(size ths * ncols self)) :
  (1 <= d) && (d <= (ar_order self)%:Z) ->
  build_datasets self d ths (Some (size ths).+1) = Ok yx ->
  incremental_design self ths yx.2 *m w = 0 -> w != 0 ->
  grid_search_objective self d ths XX resids = Raise LinAlgError.
Proof.
move=> d_ok built X1w w_neq0.
rewrite (grid_search_objective_built _ _ d_ok built).
by rewrite (negbTE (@inner_matrix_singular _ _ _ XX _ X1w w_neq0)).
Qed.

(** ** Alignment of the threshold variable *)

Lemma nth_threshold_variable
    (self : SETAR) (d : int) (r : nat) :
  (1 <= d) && (d <= (ar_order self)%:Z) ->
  (r < size (endog self) - ar_order self)%N ->
  nth 0 (threshold_variable self d) r
  = nth 0 (endog self) (ar_order self + r - absz d)
  /\ nth 0 (drop (nobs_initial self) (endog self)) r
     = nth 0 (endog self) (ar_order self + r).
Proof.
case/delay_in_rangeP => m -> lt_mp lt_r; split; last by rewrite nth_drop.
rewrite /threshold_variable /py_slice /nobs_initial.
rewrite subzn // -NegzE /= nth_drop.
set N := size _ in lt_r *; set p := ar_order self in lt_mp lt_r *.
move/ssrnat.ltP: lt_r; move/ssrnat.ltP: lt_mp; rewrite -!minusE => lt_mp lt_r.
have le_mN : (p - m.+1 <= N)%N by apply/ssrnat.leP; rewrite -!minusE; lia.
rewrite (minn_idPl le_mN) nth_take.
- by apply/ssrnat.ltP; rewrite -!minusE -!plusE; lia.
- by congr (nth 0 _ _); rewrite -!minusE -!plusE; lia.
Qed.

(** X18. For a delay within [1, ar_order], row [r] of the datasets pairs
    the observation [endog[ar_order + r]] with the threshold variable
    [endog[ar_order + r - delay]]: the regime of an observation is decided
    by the value [delay] steps before it. *)
Theorem threshold_variable_is_lagged_response
    (self : SETAR) (d : int) (r : nat) :
  (1 <= d) && (d <= (ar_order self)%:Z) ->
  (r < size (endog self) - ar_order self)%N ->
  nth 0 (threshold_variable self d) r
  = nth 0 (endog self) (ar_order self + r - absz d)
  /\ nth 0 (drop (nobs_initial self) (endog self)) r
     = nth 0 (endog self) (ar_order self + r).
Proof. exact: nth_threshold_variable. Qed.

Lemma threshold_variable_is_lagged_response_witness :
  nth 0 (threshold_variable periodic_model 2) 3
  = nth 0 (endog periodic_model) (ar_order periodic_model + 3 - absz 2)
  /\ nth 0 (drop (nobs_initial periodic_model) (endog periodic_model)) 3
     = nth 0 (endog periodic_model) (ar_order periodic_model + 3).
Proof.
exact: (@threshold_variable_is_lagged_response periodic_model 2 3 isT isT).
Defined.

(** ** Entries of the designs *)

Lemma nth_flatten_blocks (f : nat -> seq rat) (k n a i j : nat) :
  (forall i', size (f i') = k) -> (i < n)%N -> (j < k)%N ->
  nth 0 (flatten [seq f i' | i' <- iota a n]) (i * k + j)
  = nth 0 (f (a + i)%N) j.
Proof.
move=> sz_f; elim: n a i => [|n IH] a [|i] //= lt_i lt_j.
- by rewrite nth_cat sz_f mul0n add0n lt_j addn0.
- rewrite nth_cat sz_f mulSn -addnA ltnNge leq_addr /=.
  by rewrite addKn IH // addSnnS.
Qed.

Lemma nth_mask_row b row j :
  nth 0 (mask_row b row) j = if b then nth 0 row j else 0.
Proof. by case: b => //=; rewrite nth_nseq; case: ifP. Qed.

(** Column [i * k + j] of the incremental design is column [j] of the
    lagged design on the rows of regime [i], and zero elsewhere. *)
Lemma incremental_design_entry self (d : int) ths yx
    (r : 'I_(nrows self)) (a : 'I_(size ths * ncols self)) (i j : nat) :
  (1 <= d) && (d <= (ar_order self)%:Z) ->
  build_datasets self d ths (Some (size ths).+1) = Ok yx ->
  nat_of_ord a = (i * ncols self + j)%N -> (i < size ths)%N ->
  (j < ncols self)%N ->
  incremental_design self ths yx.2 r a
  = if nth 0%N (regime_indicators self d ths) r == i
    then nth 0 (nth [::] (design_rows self) r) j else 0.
Proof.
move=> d_ok; case: yx => y x built Ea lt_i lt_j.
have [_ sz_x nth_x] := build_datasets_rows d_ok built.
rewrite /incremental_design mxE /drop_last_block /=.
have lt_r : (r < size (design_rows self))%N by [].
have width_r : size (nth [::] (design_rows self) r) = ncols self.
  by have /eqP -> := allP (width_design_rows self) _ (mem_nth [::] lt_r).
have sz_row : size (nth [::] x r) = ((size ths).+1 * ncols self)%N.
  by rewrite nth_x size_flatten_masked size_iota width_r.
have lt_a : (a < size (nth [::] x r) - (ar_order self).+1)%N.
  by rewrite sz_row mulSn -/(ncols self) addKn.
rewrite (nth_map [::]) ?sz_x // /py_slice_to /= (nth_take _ lt_a) nth_x Ea.
pose f i' := mask_row (nth 0%N (regime_indicators self d ths) r == i')
               (nth [::] (design_rows self) r).
have sz_f i' : size (f i') = ncols self by rewrite /f size_mask_row.
have lt_i' : (i < (size ths).+1)%N by exact: ltnW.
rewrite -/f (nth_flatten_blocks 0 sz_f lt_i' lt_j) add0n.
by rewrite /f nth_mask_row.
Qed.

(** ** Regimes without a row *)

Lemma block_col_proof (q k : nat) (i : 'I_q) (j : 'I_k) :
  (i * k + j < q * k)%N.
Proof.
apply: (@leq_trans (i.+1 * k)%N); first by rewrite mulSn addnC ltn_add2r.
by rewrite leq_mul2r ltn_ord orbT.
Qed.

(** X17. A candidate that leaves a regime before the last without a
    single row is not scored. For a delay within [1, ar_order] and sorted
    thresholds, if the partitioner succeeds (which, with an empty regime,
    takes a [min_regime_num] that is not positive) and no row falls in
    regime [i0 < len(thresholds)], then the block of that regime in [X1]
    is zero, the matrix handed to [np.linalg.inv] has zero columns, and
    the objective raises [LinAlgError], whatever [XX] and the residuals
    are. *)
Theorem empty_regime_candidate_raises
    (self : SETAR) (d : int) (ths : seq pyval)
    (XX : 'M[rat]_(ncols self)) (resids : seq rat)
    (yx : seq rat * seq (seq rat)) (i0 : nat) :
  (1 <= d) && (d <= (ar_order self)%:Z) ->
  sorted py_le ths ->
  build_datasets self d ths (Some (size ths).+1) = Ok yx ->
  (i0 < size ths)%N ->
  regime_count (regime_indicators self d ths) i0 = 0%N ->
  grid_search_objective self d ths XX resids = Raise LinAlgError.
Proof.
move=> d_ok _ built lt_i0 empty.
pose i : 'I_(size ths) := Ordinal lt_i0.
pose a : 'I_(size ths * ncols self) :=
  Ordinal (block_col_proof i (ord0 : 'I_(ncols self))).
apply: (@dependent_columns_raise self d ths XX resids yx (delta_mx a 0)
          d_ok built).
- rewrite -colE; apply/matrixP => r j; rewrite [LHS]mxE [RHS]mxE.
  have Ea : nat_of_ord a = (i0 * ncols self + 0)%N by [].
  have -> := @incremental_design_entry self d ths yx r a i0 0 d_ok built Ea
               lt_i0 (ltn0Sn _).
  case: eqP => // Er.
  have lt_r : (r < size (regime_indicators self d ths))%N.
    by rewrite size_regime_indicators.
  have : i0 \in regime_indicators self d ths.
    by rewrite -Er; apply: mem_nth.
  by rewrite -has_pred1 has_count -regime_countE empty.
- by apply/eqP => /matrixP/(_ a 0); rewrite !mxE !eqxx; apply/eqP/oner_neq0.
Qed.

Lemma empty_regime_candidate_raises_witness :
  grid_search_objective unguarded_model 2 [:: Some 0] unguarded_gram_inv
    [:: 0; 0; 0; 0]
  = Raise LinAlgError.
Proof.
apply: (@empty_regime_candidate_raises unguarded_model 2 [:: Some 0]
          unguarded_gram_inv _ unguarded_dataset 0).
- by [].
- by [].
- exact: unguarded_build_datasets.
- by [].
- by vm_compute.
Defined.

(** ** Convergence of the refinement *)

Lemma sweep_positions grid d ths p a n p' :
  sweep grid d ths p (iota a n) = Ok p' ->
  forall j,
    if (a <= j < a + n)%N
    then exists2 b, grid (without ths j) (Some [:: d]) = Ok b
                  & nth None p' j = param_threshold b
    else nth None p' j = nth None p j.
Proof.
elim: n a p => [|n IH] a p /=.
  by case=> <- j; rewrite addn0; case: ltngtP.
case Eb: (grid _ _) => [b|e] //=.
rewrite /py_setitem; case: ifP => //= lt_a /IH later j.
have := later j; rewrite addSnnS nth_set_nth /=.
case: (ltngtP a j) => [lt_aj | lt_ja | Eaj] /=.
- by [].
- by [].
- by rewrite Eaj addnS ltnS leq_addr => ->; exists b; rewrite -?Eaj.
Qed.

(** X20. When the refinement loop stops without the warning, the vector
    it hands on is a fixed point of the sweep: every threshold position
    [j < i] holds exactly what the grid search proposes for that position
    when the other thresholds are held fixed. *)
Theorem converged_thresholds_are_coordinatewise_best
    (grid : seq pyval -> option (seq (option int)) -> result best)
    (fuel i : nat) (d : option int) (ths0 : seq pyval) (r : refined) :
  refine grid fuel i d 0 ths0 ths0 = Some (Ok r) ->
  ref_warned r = false ->
  forall j, (j < i)%N ->
    exists2 b,
      grid (without (ref_thresholds r) j) (Some [:: d]) = Ok b
      & nth None (ref_thresholds r) j = param_threshold b.
Proof.
move=> /refine_returns[n [_ _ Esweep Ew _]] not_warned j lt_j.
move: Ew; rewrite not_warned => /esym/negbFE/eqP Ep.
have := sweep_positions Esweep j.
by rewrite add0n leq0n lt_j /= Ep.
Qed.

Lemma converged_thresholds_are_coordinatewise_best_witness :
  exists2 b,
    settled_grid (without [:: Some 5; Some 5] 1) (Some [:: Some (2 : int)])
    = Ok b
    & nth None [:: Some 5; Some 5] 1 = param_threshold b.
Proof.
apply: (@converged_thresholds_are_coordinatewise_best settled_grid 1 2
          (Some 2) [:: Some 5; Some 5]
          (mkRefined [:: Some 5; Some 5] [:: Some 5; Some 5] 1 false) _ _ 1).
- by vm_compute.
- by [].
- by [].
Defined.
